(** * habr-images-parser: the threaded scraper, [threaded_parser.py]

    A shallow embedding of the scraper and of its shutdown protocol.

    - Python [str] values are lists of code points ([N]); string literals
      of the source are written [lit "..."].
    - The network, the regular-expression engine and the file system are
      the environment: a record [Env] of the answers they give.
    - Code that can raise returns a [result]; code that writes to the
      shared world (log, directories, downloads) threads a [world].
    - [run_scraper] and its worker threads are a transition system: one
      step per access to shared state, chosen by a scheduler. *)

From Stdlib Require Import ZArith Lia String Ascii DecimalString.
From Equations Require Import Equations.
From stdpp Require Import base list.

Local Open Scope Z_scope.
Set Default Proof Using "Type".

(** ** Strings *)

Definition char := N.
Definition str := list char.

(** A literal of the source, one code point per character. *)
Definition lit (s : string) : str :=
  (fun a => N_of_ascii a) <$> list_ascii_of_string s.

(** [str(i)] and the [{i}] of an f-string, for an integer. *)
Definition str_of_int (z : Z) : str :=
  lit (NilZero.string_of_int (Z.to_int z)).

(** [s.startswith(old)] *)
Fixpoint startswith (old s : str) : bool :=
  match old, s with
  | [], _ => true
  | _ :: _, [] => false
  | a :: old', b :: s' => N.eqb a b && startswith old' s'
  end.

(** [s.replace(old, '')]: one left-to-right pass that drops every
    non-overlapping occurrence of [old]; an empty [old] changes nothing. *)
Equations? remove_occurrences (old s : str) : str by wf (length s) lt :=
remove_occurrences [] s := s;
remove_occurrences (o :: old') [] := [];
remove_occurrences (o :: old') (c :: t) :=
  if startswith (o :: old') (c :: t)
  then remove_occurrences (o :: old') (drop (length old') t)
  else c :: remove_occurrences (o :: old') t.
Proof.
  all: simpl; try rewrite length_drop; lia.
Qed.

Definition WINDOWS_DIRECTORY_INVALID_SYMBOLS : list str :=
  [lit "<"; lit ">"; lit ":"; [34%N]; [92%N];
   lit "/"; lit "|"; lit "?"; lit "*"; lit "&nbsp;"; [160%N]].

(** The loop shared by [save_images] and [start_image_loader]:
    [for s in WINDOWS_DIRECTORY_INVALID_SYMBOLS:
       directory_name = directory_name.replace(s, '')] *)
Definition sanitize (name : str) : str :=
  foldl (fun directory_name s => remove_occurrences s directory_name)
        name WINDOWS_DIRECTORY_INVALID_SYMBOLS.

(** [sub in s] for strings. *)
Fixpoint contains (sub s : str) : bool :=
  startswith sub s ||
  match s with
  | [] => false
  | _ :: t => contains sub t
  end.

(** ** Results and the environment *)

Inductive exn :=
| AttributeError            (* [None.decode()] *)
| UnicodeDecodeError
| HTTPError
| URLError
| FileExistsError
| Exception (msg : str)     (* [raise Exception(...)] *)
| OtherError (msg : str).   (* anything else the environment raises *)

Inductive result (A : Type) :=
| Ok (a : A)
| Raise (e : exn).
Arguments Ok {A} a.
Arguments Raise {A} e.

#[global] Instance result_ret : MRet result := @Ok.
#[global] Instance result_bind : MBind result := fun A B f m =>
  match m with
  | Ok a => f a
  | Raise e => Raise e
  end.

Inductive regexp :=
| HABR_ARTICLE_LINKS_REGEXP
| IMAGE_REGEXP
| ARTICLE_TITLE_REGEXP.

Definition bytes := list N.

(** What the outside world answers. [urlretrieve] and [mkdir] give the
    exception they raise, if any. *)
Record Env := {
  urlopen_read : str -> result bytes;      (* [urlopen(url, timeout=10).read()] *)
  decode : bytes -> option str;            (* [bytes.decode()]; [None]: not UTF-8 *)
  findall : regexp -> str -> list str;     (* [re.findall(regexp, content)] *)
  urlretrieve : str -> str -> option exn;  (* [urllib.request.urlretrieve] *)
  exists_before : str -> bool;             (* directories present at start *)
  mkdir : str -> option exn;               (* [os.mkdir] of an absent path *)
  thread_name : nat -> str                 (* [threading.current_thread().name] *)
}.

Definition HABR_MAIN : str := lit "https://habr.com".

Record Article := {
  link : str;
  name : str;
  images_links : list str
}.

(** [pathlib.Path]: whether it is rooted, and its components. *)
Record Path := {
  rooted : bool;
  parts : list str
}.

(** [str(path)] *)
Definition Path_str (p : Path) : str :=
  match rooted p, parts p with
  | false, [] => lit "."
  | false, d :: ds => foldl (fun acc x => acc ++ lit "/" ++ x) d ds
  | true, [] => lit "/"
  | true, ds => foldl (fun acc x => acc ++ lit "/" ++ x) [] ds
  end.

(** [path.name]: the final component, [''] when there is none. *)
Definition Path_name (p : Path) : str := List.last (parts p) [].

(** ** Fetching and extraction (no shared state) *)

Section Extraction.
Variable E : Env.

Definition load_content (url : str) : result (option bytes) :=
  match urlopen_read E url with
  | Ok b => Ok (Some b)
  | Raise HTTPError | Raise URLError => Ok None
  | Raise e => Raise e
  end.

(** [found[0:n]] for any integer [n]. *)
Definition slice_to {A} (found : list A) (n : Z) : list A :=
  if n <? 0 then take (Z.to_nat (Z.of_nat (length found) + n)) found
  else take (Z.to_nat n) found.

Definition get_items (link : str) (re : regexp) (n : Z) : result (list str) :=
  c ← load_content link;
  match c with
  | None => Raise AttributeError
  | Some b =>
      match decode E b with
      | None => Raise UnicodeDecodeError
      | Some content =>
          let found := findall E re content in
          if n =? 0 then Ok found else Ok (slice_to found n)
      end
  end.

Definition parse_images (link : str) : result (list str) :=
  get_items link IMAGE_REGEXP 0.

Equations? get_articles_links (n : Z) : result (list str) by wf (Z.to_nat n) lt :=
get_articles_links n with Z_lt_dec 0 n := {
  | right _ => Ok []
  | left _ =>
      match get_items (HABR_MAIN ++ lit "/ru/all/page" ++ str_of_int (n / 20 + 1))
                      HABR_ARTICLE_LINKS_REGEXP (Z.min n 20) with
      | Raise e => Raise e
      | Ok found =>
          match get_articles_links (n - 20) with
          | Raise e => Raise e
          | Ok links => Ok (((fun art_link => HABR_MAIN ++ art_link) <$> found) ++ links)
          end
      end }.
Proof. lia. Qed.

Fixpoint get_articles_info (links : list str) : result (list Article) :=
  match links with
  | [] => Ok []
  | link :: rest =>
      titles_candidates ← get_items link ARTICLE_TITLE_REGEXP 0;
      match titles_candidates with
      | [] => Raise (Exception (lit "title does not exists in: " ++ link))
      | title :: _ =>
          imgs ← parse_images link;
          articles ← get_articles_info rest;
          Ok ({| link := link; name := title; images_links := imgs |} :: articles)
      end
  end.
End Extraction.

(** The page at [link] gives no title: no match, or no page at all. *)
Definition no_title (E : Env) (link : str) : Prop :=
  match get_items E link ARTICLE_TITLE_REGEXP 0 with
  | Ok (_ :: _) => False
  | _ => True
  end.

(** ** The shared world and the code that writes to it *)

Record world := {
  graceful_kill : bool;            (* [GracefulKiller.graceful_kill] *)
  log : list str;                  (* lines printed by [write_log] *)
  made_dirs : list str;            (* directories created by the run *)
  attempts : list (str * str)      (* [download_image] calls: url, destination *)
}.

Definition world0 : world :=
  {| graceful_kill := false; log := []; made_dirs := []; attempts := [] |}.

Definition M (A : Type) : Type := world -> result A * world.

#[global] Instance M_ret : MRet M := fun A a w => (Ok a, w).
#[global] Instance M_bind : MBind M := fun A B f m w =>
  match m w with
  | (Ok a, w') => f a w'
  | (Raise e, w') => (Raise e, w')
  end.

(** A Python [for] loop whose body can raise. *)
Fixpoint for_each {A} (l : list A) (body : A -> M unit) : M unit :=
  match l with
  | [] => mret ()
  | x :: l' => body x ≫= fun _ => for_each l' body
  end.

Definition write_log (message : str) : M unit := fun w =>
  (Ok (), {| graceful_kill := graceful_kill w;
             log := log w ++ [lit "[info] " ++ message];
             made_dirs := made_dirs w;
             attempts := attempts w |}).

Definition Event_set : M unit := fun w =>
  (Ok (), {| graceful_kill := true;
             log := log w;
             made_dirs := made_dirs w;
             attempts := attempts w |}).

(** [GracefulKiller.exit_gracefully] *)
Definition exit_gracefully : M unit :=
  Event_set ≫= fun _ => write_log (lit "___Graceful kill___").

(** [n] deliveries of the signal, one after the other. *)
Definition signals (n : nat) : M unit :=
  for_each (seq 0 n) (fun _ => exit_gracefully).

Definition graceful_kill_line : str := lit "[info] ___Graceful kill___".

Section FileSystem.
Variable E : Env.

Definition os_path_exists (p : str) : M bool := fun w =>
  (Ok (exists_before E p || bool_decide (p ∈ made_dirs w)), w).

Definition os_mkdir (p : str) : M unit := fun w =>
  if exists_before E p || bool_decide (p ∈ made_dirs w)
  then (Raise FileExistsError, w)
  else match mkdir E p with
       | Some e => (Raise e, w)
       | None => (Ok (), {| graceful_kill := graceful_kill w;
                            log := log w;
                            made_dirs := made_dirs w ++ [p];
                            attempts := attempts w |})
       end.

Definition download_image (img_link out_path : str) : M unit := fun w =>
  let w' := {| graceful_kill := graceful_kill w;
               log := log w;
               made_dirs := made_dirs w;
               attempts := attempts w ++ [(img_link, out_path)] |} in
  match urlretrieve E img_link out_path with
  | Some e => (Raise e, w')
  | None => (Ok (), w')
  end.

(** [out_dir + f"/{i}.jpg"] *)
Definition image_path (out_dir : str) (i : nat) : str :=
  out_dir ++ lit "/" ++ str_of_int (Z.of_nat i) ++ lit ".jpg".

(** [download_image(links[i], out_dir + f"/{i}.jpg")], the body of the
    loop of [download_all_images]. *)
Definition download_at (links : list str) (out_dir : str) (i : nat) : M unit :=
  match links !! i with
  | Some l => download_image l (image_path out_dir i)
  | None => fun w => (Raise (OtherError (lit "IndexError")), w)
  end.

Definition download_all_images (links : list str) (out_dir : str) : M unit :=
  ex ← os_path_exists out_dir;
  (if negb ex then os_mkdir out_dir else mret ()) ≫= fun _ =>
  for_each (seq 0 (length links)) (download_at links out_dir).

(** [save_images]: the sequential path, which no caller uses; it joins
    the whole [out_path] with the directory name. *)
Definition save_images (articles : list Article) (out_path : str) : M unit :=
  ex ← os_path_exists out_path;
  (if negb ex then os_mkdir out_path else mret ()) ≫= fun _ =>
  for_each articles (fun art =>
    match images_links art with
    | [] => mret ()
    | _ => download_all_images (images_links art)
                               (out_path ++ lit "/" ++ sanitize (name art))
    end).
End FileSystem.

(** The downloads [download_all_images] is to make, in order. *)
Definition destinations (links : list str) (out_dir : str) : list (str * str) :=
  imap (fun i l => (l, image_path out_dir i)) links.

(** ** The queue of articles *)

(** [queue.Queue]: [empty()] and [get()]; [get] on an empty queue blocks,
    which is [None] here. *)
Definition Queue_empty (q : list Article) : bool :=
  match q with [] => true | _ => false end.

Definition Queue_get (q : list Article) : option (Article * list Article) :=
  match q with
  | [] => None
  | a :: q' => Some (a, q')
  end.

Definition Queue_put (q : list Article) (a : Article) : list Article := q ++ [a].

(** [ArticlesProvider.__init__]: an empty queue, then [put] for each
    article of the list. *)
Definition ArticlesProvider (articles_arr : list Article) : list Article :=
  foldl Queue_put [] articles_arr.

(** [ArticlesProvider.get_article_to_handle], called with nobody else
    touching the queue: the value returned and the queue left, or [None]
    when the call blocks. *)
Definition get_article_to_handle (q : list Article)
  : option (option Article * list Article) :=
  if Queue_empty q then Some (None, q)
  else '(a, q') ← Queue_get q; Some (Some a, q').

Definition is_finish (q : list Article) : bool := Queue_empty q.

(** [k] calls in a row: what each returned, and the queue left. *)
Fixpoint take_calls (k : nat) (q : list Article)
  : option (list (option Article) * list Article) :=
  match k with
  | O => Some (nil, q)
  | S k' =>
      '(r, q') ← get_article_to_handle q;
      '(rs, q'') ← take_calls k' q';
      Some (r :: rs, q'')
  end.

(** ** The run: supervisor, workers and the interrupt signal *)

Record config := {
  threads : Z;
  articles_count : Z;
  out_dir : Path
}.

(** Where a worker thread is in [start_image_loader]. *)
Inductive wstate :=
| WStart                             (* before [write_log(name + ' start')] *)
| WLoop                              (* at the [while] test *)
| WEmptyCheck                        (* at [self.articles.empty()] *)
| WGet                               (* at [self.articles.get()] *)
| WHandle (a : Article)              (* before the 'handling' log line *)
| WExists (a : Article)              (* at [os.path.exists(out_dir)] *)
| WMkdir (a : Article)               (* at [os.mkdir(out_dir)] *)
| WDownload (a : Article) (i : nat)  (* at iteration [i] of the download loop *)
| WEndHandle (a : Article)           (* before the 'end handling' log line *)
| WFinish                            (* before [write_log(name + ' finish')] *)
| WDone                              (* the target returned *)
| WDead (e : exn).                   (* the target raised; the thread is over *)

(** Where the main thread is in [run_scraper]. *)
Inductive sstate :=
| SInit                  (* before [killer = GracefulKiller()] *)
| SFetch                 (* before the links and the articles are fetched *)
| SStart (i : nat)       (* at iteration [i] of [for i in range(threads)] *)
| SPoll                  (* at the test of the polling loop *)
| SJoin (i : nat)        (* at [pool[i].join()] *)
| SReturned
| SRaised (e : exn).

Record state := {
  sup : sstate;
  provider : option (list Article);  (* [None]: not constructed yet *)
  pool : list wstate;
  shared : world
}.

Definition init : state :=
  {| sup := SInit; provider := None; pool := []; shared := world0 |}.

(** A thread is over when its target returned or raised; [join] waits
    for that. *)
Definition terminated (ws : wstate) : bool :=
  match ws with
  | WDone | WDead _ => true
  | _ => false
  end.

(** The article a worker is busy with, if any. *)
Definition article_of (ws : wstate) : option Article :=
  match ws with
  | WHandle a | WExists a | WMkdir a | WDownload a _ | WEndHandle a => Some a
  | _ => None
  end.

Inductive actor :=
| Main
| Worker (k : nat)
| Signal.        (* SIGINT or SIGTERM is delivered *)

Section Run.
Variable E : Env.
Variable c : config.

(** [out_path.name + '/' + directory_name] *)
Definition target_dir (a : Article) : str :=
  Path_name (out_dir c) ++ lit "/" ++ sanitize (name a).

(** One step of worker [k]: its next state, the queue and the world. *)
Definition start_image_loader_step (k : nat) (ws : wstate) (q : list Article) (w : world)
  : option (wstate * list Article * world) :=
  let name_ := thread_name E k in
  match ws with
  | WStart =>
      Some (WLoop, q, (write_log (name_ ++ lit " start") w).2)
  | WLoop =>
      Some (if graceful_kill w then WFinish else WEmptyCheck, q, w)
  | WEmptyCheck =>
      Some (if Queue_empty q then WFinish else WGet, q, w)
  | WGet =>
      '(a, q') ← Queue_get q;
      Some (match images_links a with [] => WLoop | _ => WHandle a end, q', w)
  | WHandle a =>
      Some (WExists a, q,
            (write_log (name_ ++ lit " handling " ++ name a) w).2)
  | WExists a =>
      match os_path_exists E (target_dir a) w with
      | (Ok true, w') => Some (WDownload a 0, q, w')
      | (Ok false, w') => Some (WMkdir a, q, w')
      | (Raise e, w') => Some (WDead e, q, w')
      end
  | WMkdir a =>
      match os_mkdir E (target_dir a) w with
      | (Ok _, w') => Some (WDownload a 0, q, w')
      | (Raise e, w') => Some (WDead e, q, w')
      end
  | WDownload a i =>
      match images_links a !! i with
      | None => Some (WEndHandle a, q, w)
      | Some l =>
          match download_image E l (image_path (target_dir a) i) w with
          | (Ok _, w') => Some (WDownload a (S i), q, w')
          | (Raise e, w') => Some (WDead e, q, w')
          end
      end
  | WEndHandle a =>
      Some (WLoop, q,
            (write_log (name_ ++ lit " end handling " ++ name a) w).2)
  | WFinish =>
      Some (WDone, q, (write_log (name_ ++ lit " finish") w).2)
  | WDone | WDead _ => None
  end.

(** [n] steps of worker [k] with no other thread moving in between. *)
Fixpoint start_image_loader_steps (n : nat) (k : nat) (ws : wstate) (q : list Article)
    (w : world) : option (wstate * list Article * world) :=
  match n with
  | O => Some (ws, q, w)
  | S n' =>
      '(ws1, q1, w1) ← start_image_loader_step k ws q w;
      start_image_loader_steps n' k ws1 q1 w1
  end.

(** Where the worker is after [download_all_images] for article [a]:
    at the 'end handling' line, or over when the call raised. *)
Definition after_download (a : Article) (q : list Article)
    (r : result unit * world) : wstate * list Article * world :=
  match r with
  | (Ok _, w) => (WEndHandle a, q, w)
  | (Raise e, w) => (WDead e, q, w)
  end.

(** [get_articles_info(get_articles_links(articles_count))] *)
Definition fetch_articles : result (list Article) :=
  get_articles_links E (articles_count c) ≫= get_articles_info E.

(** One step of the main thread. [None]: it cannot move (it has
    finished, or it waits in [join]). *)
Definition run_scraper_step (s : state) : option state :=
  match sup s with
  | SInit =>
      Some {| sup := SFetch; provider := provider s;
              pool := pool s; shared := shared s |}
  | SFetch =>
      match fetch_articles with
      | Raise e =>
          Some {| sup := SRaised e; provider := provider s;
                  pool := pool s; shared := shared s |}
      | Ok articles =>
          Some {| sup := SStart 0; provider := Some (ArticlesProvider articles);
                  pool := []; shared := shared s |}
      end
  | SStart i =>
      if Z.of_nat i <? Z.min (threads c) (articles_count c)
      then Some {| sup := SStart (S i); provider := provider s;
                   pool := pool s ++ [WStart]; shared := shared s |}
      else Some {| sup := SPoll; provider := provider s;
                   pool := pool s; shared := shared s |}
  | SPoll =>
      q ← provider s;
      if graceful_kill (shared s) || is_finish q
      then Some {| sup := SJoin 0; provider := provider s;
                   pool := pool s; shared := shared s |}
      else Some s
  | SJoin i =>
      match pool s !! i with
      | None =>
          Some {| sup := SReturned; provider := provider s;
                  pool := pool s; shared := shared s |}
      | Some th =>
          if terminated th
          then Some {| sup := SJoin (S i); provider := provider s;
                       pool := pool s; shared := shared s |}
          else None
      end
  | SReturned | SRaised _ => None
  end.

(** The moves of the main thread, one constructor per branch of
    [run_scraper_step]. *)
Inductive run_scraper_moves (s : state) : state -> Prop :=
| main_install :
    sup s = SInit ->
    run_scraper_moves s {| sup := SFetch; provider := provider s;
                           pool := pool s; shared := shared s |}
| main_fetch_raise e :
    sup s = SFetch -> fetch_articles = Raise e ->
    run_scraper_moves s {| sup := SRaised e; provider := provider s;
                           pool := pool s; shared := shared s |}
| main_fetch_ok articles :
    sup s = SFetch -> fetch_articles = Ok articles ->
    run_scraper_moves s {| sup := SStart 0;
                           provider := Some (ArticlesProvider articles);
                           pool := []; shared := shared s |}
| main_start i :
    sup s = SStart i ->
    Z.of_nat i < Z.min (threads c) (articles_count c) ->
    run_scraper_moves s {| sup := SStart (S i); provider := provider s;
                           pool := pool s ++ [WStart]; shared := shared s |}
| main_started i :
    sup s = SStart i ->
    Z.min (threads c) (articles_count c) <= Z.of_nat i ->
    run_scraper_moves s {| sup := SPoll; provider := provider s;
                           pool := pool s; shared := shared s |}
| main_poll_over q :
    sup s = SPoll -> provider s = Some q ->
    graceful_kill (shared s) || is_finish q = true ->
    run_scraper_moves s {| sup := SJoin 0; provider := provider s;
                           pool := pool s; shared := shared s |}
| main_sleep q :
    sup s = SPoll -> provider s = Some q ->
    graceful_kill (shared s) || is_finish q = false ->
    run_scraper_moves s s
| main_join i th :
    sup s = SJoin i -> pool s !! i = Some th -> terminated th = true ->
    run_scraper_moves s {| sup := SJoin (S i); provider := provider s;
                           pool := pool s; shared := shared s |}
| main_return i :
    sup s = SJoin i -> pool s !! i = None ->
    run_scraper_moves s {| sup := SReturned; provider := provider s;
                           pool := pool s; shared := shared s |}.

(** The handlers are installed from [GracefulKiller()] until the
    process ends. *)
Definition handlers_installed (ss : sstate) : bool :=
  match ss with
  | SInit | SReturned | SRaised _ => false
  | _ => true
  end.

Definition step (who : actor) (s : state) : option state :=
  match who with
  | Main => run_scraper_step s
  | Worker k =>
      ws ← pool s !! k;
      q ← provider s;
      '(ws', q', w') ← start_image_loader_step k ws q (shared s);
      Some {| sup := sup s; provider := Some q';
              pool := <[k := ws']> (pool s); shared := w' |}
  | Signal =>
      if handlers_installed (sup s)
      then Some {| sup := sup s; provider := provider s; pool := pool s;
                   shared := (exit_gracefully (shared s)).2 |}
      else None
  end.

(** A schedule is the order in which the actors move. *)
Fixpoint run (sched : list actor) (s : state) : option state :=
  match sched with
  | [] => Some s
  | who :: sched' => step who s ≫= run sched'
  end.

Definition reachable (s : state) : Prop :=
  exists sched, run sched init = Some s.
End Run.

(** ** A small site to run the scraper on *)

Module Demo.
#[global] Instance regexp_eq_dec : EqDecision regexp.
Proof. solve_decision. Defined.

Fixpoint assoc {A B} `{EqDecision A} (k : A) (l : list (A * B)) : option B :=
  match l with
  | [] => None
  | (k', v) :: l' => if decide (k = k') then Some v else assoc k l'
  end.

(** A site given by its pages (any other address raises [URLError]),
    the matches of each expression in each body, and the image
    addresses whose download raises [URLError].  Bodies are ASCII, the
    directory [out] exists and every [mkdir] succeeds. *)
Definition site (pages : list (str * bytes))
                (matches : list (regexp * str * list str))
                (broken : list str) : Env :=
  {| urlopen_read url :=
       match assoc url pages with
       | Some body => Ok body
       | None => Raise URLError
       end;
     decode b := Some b;
     findall re content := default [] (assoc (re, content) matches);
     urlretrieve url _ :=
       if bool_decide (url ∈ broken) then Some URLError else None;
     exists_before p := bool_decide (p = lit "out");
     mkdir _ := None;
     thread_name k := lit "Thread-" ++ str_of_int (Z.of_nat (S k)) |}.

Definition pages : list (str * bytes) :=
  [(lit "https://habr.com/ru/all/page1", lit "index");
   (lit "https://habr.com/post/1", lit "post1");
   (lit "https://habr.com/post/2", lit "post2");
   (lit "https://habr.com/post/3", lit "post3")].

Definition matches : list (regexp * str * list str) :=
  [(HABR_ARTICLE_LINKS_REGEXP, lit "index",
      [lit "/post/1"; lit "/post/2"; lit "/post/3"]);
   (ARTICLE_TITLE_REGEXP, lit "post1", [lit "a/b"]);
   (IMAGE_REGEXP, lit "post1",
      [lit "https://habrastorage.org/1a.png";
       lit "https://habrastorage.org/1b.png"]);
   (ARTICLE_TITLE_REGEXP, lit "post2", [lit "ab"]);
   (IMAGE_REGEXP, lit "post2", [lit "https://habrastorage.org/2a.png"]);
   (ARTICLE_TITLE_REGEXP, lit "post3", [lit "Third"])].

(** Every download works. *)
Definition habr : Env := site pages matches [].

(** The first image of the first article cannot be downloaded. *)
Definition habr_broken : Env :=
  site pages matches [lit "https://habrastorage.org/1a.png"].

(** The second article has no title. *)
Definition habr_untitled : Env :=
  site pages
    [(HABR_ARTICLE_LINKS_REGEXP, lit "index", [lit "/post/1"; lit "/post/2"]);
     (ARTICLE_TITLE_REGEXP, lit "post1", [lit "a/b"])]
    [].

Definition out : Path := {| rooted := false; parts := [lit "out"] |}.

Definition post1 : Article :=
  {| link := lit "https://habr.com/post/1";
     name := lit "a/b";
     images_links := [lit "https://habrastorage.org/1a.png";
                      lit "https://habrastorage.org/1b.png"] |}.

Definition post2 : Article :=
  {| link := lit "https://habr.com/post/2";
     name := lit "ab";
     images_links := [lit "https://habrastorage.org/2a.png"] |}.

Definition post3 : Article :=
  {| link := lit "https://habr.com/post/3";
     name := lit "Third";
     images_links := [] |}.

(** Worker [k] moves [steps] times in a row. *)
Definition alone (k : nat) (steps : nat) : list actor :=
  replicate steps (Worker k).

Definition one_worker : config :=
  {| threads := 1; articles_count := 1; out_dir := out |}.

Definition ten_workers : config :=
  {| threads := 10; articles_count := 10; out_dir := out |}.

Definition two_articles : config :=
  {| threads := 1; articles_count := 2; out_dir := out |}.

(** The main thread sets up and starts its worker, the worker runs to
    its end, the main thread polls, joins and returns. *)
Definition one_worker_schedule : list actor :=
  [Main; Main; Main; Main] ++ alone 0 14 ++ [Main; Main; Main].

Definition clean_end : state :=
  Eval vm_compute in default init (run habr one_worker one_worker_schedule init).

(** The same with the broken download: the worker is over after 8 moves. *)
Definition broken_schedule : list actor :=
  [Main; Main; Main; Main] ++ alone 0 8 ++ [Main; Main; Main].

Definition broken_end : state :=
  Eval vm_compute in default init (run habr_broken one_worker broken_schedule init).

(** One worker takes both articles in turn. *)
Definition two_articles_schedule : list actor :=
  [Main; Main; Main; Main] ++ alone 0 22 ++ [Main; Main; Main].

Definition two_articles_end : state :=
  Eval vm_compute in
    default init (run habr two_articles two_articles_schedule init).

Definition two_workers : config :=
  {| threads := 2; articles_count := 2; out_dir := out |}.

(** Worker 0 takes the first article; worker 1 sees the second one in
    the queue and is about to take it; worker 0 finishes its article and
    takes the second one first. *)
Definition race_schedule : list actor :=
  [Main; Main; Main; Main; Main] ++ alone 0 4 ++ alone 1 3 ++ alone 0 10.

(** The state in which the worker is about to download the first image. *)
Definition before_download : state :=
  Eval vm_compute in
    default init (run habr_broken one_worker
                      ([Main; Main; Main; Main] ++ alone 0 7) init).
(** Both workers are started; worker 1 is in [get()] and the queue is
    empty. *)
Definition race_state : state :=
  Eval vm_compute in default init (run habr two_workers race_schedule init).

(** One worker, two articles, the first download fails: the worker is
    over, the second article is still in the queue. *)
Definition stranded : state :=
  Eval vm_compute in
    default init (run habr_broken two_articles
                      ([Main; Main; Main; Main] ++ alone 0 8) init).

(** The worker has passed the test of its loop when the signal comes. *)
Definition cancelled_late : state :=
  Eval vm_compute in
    default init (run habr one_worker
                      ([Main; Main; Main; Main] ++ alone 0 2 ++ [Signal]) init).

Definition cancelled_late_end : state :=
  Eval vm_compute in
    default init (run habr one_worker (alone 0 11 ++ [Main; Main; Main])
                      cancelled_late).

(** Nothing is asked for. *)
Definition no_articles : config :=
  {| threads := 4; articles_count := 0; out_dir := out |}.

(** The world after the images of the first article were downloaded. *)
Definition after_post1 : world :=
  Eval vm_compute in
    (download_all_images habr (images_links post1) (lit "out/ab") world0).2.

(** A site where every address answers, every listing page shows twenty
    articles, and every article page has a title and no image. *)
Definition listing : Env :=
  {| urlopen_read _ := Ok (lit "page");
     decode b := Some b;
     findall re _ :=
       match re with
       | HABR_ARTICLE_LINKS_REGEXP => replicate 20 (lit "/post/1")
       | ARTICLE_TITLE_REGEXP => [lit "Title"]
       | IMAGE_REGEXP => []
       end;
     urlretrieve _ _ := None;
     exists_before p := bool_decide (p = lit "out");
     mkdir _ := None;
     thread_name k := lit "Thread-" ++ str_of_int (Z.of_nat (S k)) |}.
End Demo.

(** The worker has passed the test of its [while] loop and has not taken
    an article yet. *)
Definition past_test (ws : wstate) : bool :=
  match ws with
  | WEmptyCheck | WGet => true
  | _ => false
  end.

Definition about_to_take (pool : list wstate) : nat :=
  length (filter (fun ws => past_test ws = true) pool).

(** ** Invariants of a run *)

Section Invariants.
Variable E : Env.
Variable c : config.

(** The join discipline of [run_scraper]. *)
Definition joined (s : state) : Prop :=
  match sup s with
  | SInit | SFetch | SRaised _ => pool s = []
  | SStart _ | SPoll => True
  | SJoin i =>
      forall j ws, (j < i)%nat -> pool s !! j = Some ws -> terminated ws = true
  | SReturned =>
      forall j ws, pool s !! j = Some ws -> terminated ws = true
  end.

(** The number of workers [run_scraper] starts: [range(min(threads,
    articles_count))]. *)
Definition started_count : Z := Z.max 0 (Z.min (threads c) (articles_count c)).

(** How far the setup has come, by the place of the main thread. *)
Definition shape (s : state) : Prop :=
  match sup s with
  | SInit | SFetch => pool s = [] /\ provider s = None
  | SRaised e => pool s = [] /\ provider s = None /\ fetch_articles E c = Raise e
  | SStart i =>
      length (pool s) = i /\ Z.of_nat i <= started_count /\ is_Some (provider s)
  | SPoll | SJoin _ | SReturned =>
      Z.of_nat (length (pool s)) = started_count /\ is_Some (provider s)
  end.

(** What holds of every state of a run whose fetch raises [e]. *)
Definition nothing_started (e : exn) (s : state) : Prop :=
  provider s = None /\ pool s = [] /\
  attempts (shared s) = [] /\ made_dirs (shared s) = [] /\
  (sup s = SInit \/ sup s = SFetch \/ sup s = SRaised e).

(** Every article in the queue or with a worker was fetched, and every
    attempt is for a resource of a fetched article, at its place. *)
Definition targeted (s : state) : Prop :=
  match provider s with
  | None => pool s = [] /\ attempts (shared s) = []
  | Some q =>
      exists articles,
        fetch_articles E c = Ok articles /\
        q ⊆ articles /\
        (forall k ws a, pool s !! k = Some ws -> article_of ws = Some a ->
                        a ∈ articles) /\
        (forall url path, (url, path) ∈ attempts (shared s) ->
           exists a i, a ∈ articles /\ images_links a !! i = Some url /\
                       path = image_path (target_dir c a) i)
  end.
End Invariants.

(** Literals, paths and the sanitizer are computed on closed terms only. *)
Arguments lit : simpl never.
Arguments str_of_int : simpl never.
Arguments sanitize : simpl never.
Arguments image_path : simpl never.
Arguments target_dir : simpl never.
Arguments Path_name : simpl never.

(** * Properties *)

(** ** The sanitizer *)

Example sanitize_title :
  sanitize (lit "What/is: <this>?") = lit "Whatis this".
Proof. vm_compute. reflexivity. Qed.

Example sanitize_nbsp :
  sanitize (lit "a&nbsp;b") = lit "ab".
Proof. vm_compute. reflexivity. Qed.

Lemma startswith_single (c x : char) (t : str) :
  startswith [c] (x :: t) = N.eqb c x.
Proof. simpl. by rewrite andb_true_r. Qed.

Lemma contains_single (c : char) (s : str) :
  contains [c] s = false <-> c ∉ s.
Proof.
  induction s as [|x t IH].
  - simpl. split; [intros _; apply not_elem_of_nil | done].
  - change (contains [c] (x :: t))
      with (startswith [c] (x :: t) || contains [c] t).
    rewrite startswith_single, orb_false_iff, IH, not_elem_of_cons.
    rewrite N.eqb_neq. tauto.
Qed.

(** A pass of [replace] only deletes. *)
Lemma remove_occurrences_elem (old s : str) (x : char) :
  x ∈ remove_occurrences old s -> x ∈ s.
Proof.
  funelim (remove_occurrences old s); simp remove_occurrences; try done.
  destruct (startswith (o :: old') (c :: t)).
  - intros Hx. apply elem_of_cons. right.
    specialize (H _ Hx). by eapply subseteq_drop.
  - rewrite !elem_of_cons. intros [->|Hx]; [by left | right; auto].
Qed.

(** A pass for a one-character symbol leaves no such character. *)
Lemma remove_occurrences_single (c : char) (s : str) :
  c ∉ remove_occurrences [c] s.
Proof.
  induction s as [|x t IH]; simp remove_occurrences.
  - apply not_elem_of_nil.
  - rewrite startswith_single. destruct (N.eqb_spec c x) as [->|Hne].
    + exact IH.
    + apply not_elem_of_cons. split; [done | exact IH].
Qed.

Lemma sanitize_loop_keeps_absent (c : char) (syms : list str) (s : str) :
  c ∉ s ->
  c ∉ foldl (fun directory_name sym => remove_occurrences sym directory_name) s syms.
Proof.
  revert s. induction syms as [|sym syms IH]; intros s Hc; simpl; [done|].
  apply IH. intros Hin. apply Hc. by eapply remove_occurrences_elem.
Qed.

Lemma sanitize_loop_single (c : char) (syms : list str) (s : str) :
  [c] ∈ syms ->
  c ∉ foldl (fun directory_name sym => remove_occurrences sym directory_name) s syms.
Proof.
  revert s. induction syms as [|sym syms IH]; intros s Hin; simpl.
  - by apply elem_of_nil in Hin.
  - apply elem_of_cons in Hin as [<-|Hin].
    + apply sanitize_loop_keeps_absent, remove_occurrences_single.
    + by apply IH.
Qed.

Lemma invalid_symbol_cases (sym : str) :
  sym ∈ WINDOWS_DIRECTORY_INVALID_SYMBOLS ->
  sym = lit "&nbsp;" \/ exists c, sym = [c].
Proof.
  unfold WINDOWS_DIRECTORY_INVALID_SYMBOLS.
  rewrite !elem_of_cons, elem_of_nil.
  intros H; repeat destruct H as [->|H]; try done;
    first [ by left | right; eexists; vm_compute; reflexivity ].
Qed.

(** C9, as the code has it: the sanitized name contains no occurrence of
    any one-character symbol of [WINDOWS_DIRECTORY_INVALID_SYMBOLS], that
    is of every symbol but ['&nbsp;']. *)
Theorem sanitize_no_single_symbol (name : str) (sym : str) :
  sym ∈ WINDOWS_DIRECTORY_INVALID_SYMBOLS ->
  sym <> lit "&nbsp;" ->
  contains sym (sanitize name) = false.
Proof.
  intros Hin Hne.
  destruct (invalid_symbol_cases sym Hin) as [->|[c ->]]; [done|].
  apply contains_single. by apply sanitize_loop_single.
Qed.

Lemma sanitize_no_single_symbol_witness :
  contains [160%N] (sanitize (lit "a<b/c" ++ [160%N] ++ lit "d")) = false.
Proof.
  apply (sanitize_no_single_symbol (lit "a<b/c" ++ [160%N] ++ lit "d") [160%N]).
  - unfold WINDOWS_DIRECTORY_INVALID_SYMBOLS. rewrite !elem_of_cons. tauto.
  - vm_compute. discriminate.
Defined.

(** C9 fails as stated: the pass for ['&nbsp;'] runs once, and the text
    around a deleted occurrence can close up into a new one. *)
Lemma sanitize_leaves_nbsp :
  lit "&nbsp;" ∈ WINDOWS_DIRECTORY_INVALID_SYMBOLS /\
  sanitize (lit "&nb&nbsp;sp;") = lit "&nbsp;" /\
  contains (lit "&nbsp;") (sanitize (lit "&nb&nbsp;sp;")) = true.
Proof.
  split; [|split].
  - unfold WINDOWS_DIRECTORY_INVALID_SYMBOLS. rewrite !elem_of_cons. tauto.
  - vm_compute. reflexivity.
  - vm_compute. reflexivity.
Qed.

(** The same residue appears when the later pass for ['\xa0'] deletes a
    character inside the entity. *)
Example sanitize_xa0_inside_entity :
  sanitize (lit "&nb" ++ [160%N] ++ lit "sp;") = lit "&nbsp;".
Proof. vm_compute. reflexivity. Qed.

(** ** The queue *)

Lemma get_article_to_handle_front (a : Article) (q : list Article) :
  get_article_to_handle (a :: q) = Some (Some a, q).
Proof. reflexivity. Qed.

Lemma get_article_to_handle_empty :
  get_article_to_handle [] = Some (None, []).
Proof. reflexivity. Qed.

Lemma ArticlesProvider_queue (articles_arr : list Article) :
  ArticlesProvider articles_arr = articles_arr.
Proof.
  unfold ArticlesProvider.
  enough (forall q, foldl Queue_put q articles_arr = q ++ articles_arr) as H
    by apply H.
  induction articles_arr as [|a l IH]; intros q; simpl.
  - by rewrite app_nil_r.
  - rewrite IH. unfold Queue_put. by rewrite <- app_assoc.
Qed.

(** C1: [k] successive calls return the first [k] articles in the order
    they were put, each once, then [None] for every call beyond the last
    article; the queue keeps exactly the articles not yet returned, and no
    call blocks. *)
Theorem take_calls_fifo (articles_arr : list Article) (k : nat) :
  take_calls k (ArticlesProvider articles_arr) =
    Some ((Some <$> take k articles_arr) ++
            replicate (k - length articles_arr) None,
          drop k articles_arr).
Proof.
  rewrite ArticlesProvider_queue.
  revert articles_arr. induction k as [|k IH]; intros q.
  - simpl. by rewrite drop_0.
  - destruct q as [|a q].
    + cbn [take_calls]. rewrite get_article_to_handle_empty. simpl.
      rewrite IH. by rewrite take_nil, drop_nil, Nat.sub_0_r.
    + cbn [take_calls]. rewrite get_article_to_handle_front. simpl.
      by rewrite IH.
Qed.

Example take_calls_demo :
  take_calls 5 (ArticlesProvider [Demo.post1; Demo.post2; Demo.post3]) =
    Some ([Some Demo.post1; Some Demo.post2; Some Demo.post3; None; None], []).
Proof. reflexivity. Qed.

(** ** The cancellation signal *)

Lemma exit_gracefully_spec (w : world) :
  exit_gracefully w =
    (Ok (), {| graceful_kill := true;
               log := log w ++ [graceful_kill_line];
               made_dirs := made_dirs w;
               attempts := attempts w |}).
Proof. reflexivity. Qed.

Lemma signals_from (i n : nat) (w : world) :
  for_each (seq i n) (fun _ => exit_gracefully) w =
    (Ok (), {| graceful_kill := if n is O then graceful_kill w else true;
               log := log w ++ replicate n graceful_kill_line;
               made_dirs := made_dirs w;
               attempts := attempts w |}).
Proof.
  revert i w. induction n as [|n IH]; intros i w.
  - simpl. rewrite app_nil_r. by destruct w.
  - simpl seq. simpl for_each. unfold mbind, M_bind.
    rewrite exit_gracefully_spec, IH. simpl.
    rewrite <- app_assoc. simpl. by destruct n.
Qed.

(** C7, as the code has it: however often the signal is delivered, the
    flag ends up set, as after one delivery, and the log gains one
    'Graceful kill' line per delivery; nothing else changes. *)
Theorem signals_set_flag_and_log_each (n : nat) (w : world) :
  signals (S n) w =
    (Ok (), {| graceful_kill := true;
               log := log w ++ replicate (S n) graceful_kill_line;
               made_dirs := made_dirs w;
               attempts := attempts w |}).
Proof. unfold signals. by rewrite signals_from. Qed.

(** C7 fails as stated: two deliveries leave two records, not one. *)
Lemma two_signals_two_records :
  log (signals 2 world0).2 = [graceful_kill_line; graceful_kill_line] /\
  log (signals 1 world0).2 = [graceful_kill_line] /\
  graceful_kill (signals 2 world0).2 = graceful_kill (signals 1 world0).2.
Proof. vm_compute. done. Qed.

(** ** Extraction *)

Lemma slice_to_pos {A} (found : list A) (n : Z) :
  0 < n -> slice_to found n = take (Z.to_nat n) found.
Proof.
  intros Hn. unfold slice_to.
  destruct (Z.ltb_spec n 0); [lia | done].
Qed.

(** [found[0:n]] with a negative [n] drops from the end instead. *)
Example slice_to_negative : slice_to [1; 2; 3; 4] (-1) = [1; 2; 3].
Proof. reflexivity. Qed.

(** C10: on a page that was fetched and decoded, a positive limit [n]
    gives the first [n] matches (all of them when there are fewer), and
    the limit 0 gives every match. *)
Theorem get_items_limit (E : Env) (link : str) (re : regexp)
    (b : bytes) (content : str) (n : Z) :
  load_content E link = Ok (Some b) ->
  decode E b = Some content ->
  0 < n ->
  get_items E link re n = Ok (take (Z.to_nat n) (findall E re content)) /\
  get_items E link re 0 = Ok (findall E re content).
Proof.
  intros Hload Hdec Hn. unfold get_items. rewrite Hload. simpl. rewrite Hdec.
  split; [|done].
  destruct (Z.eqb_spec n 0); [lia|]. by rewrite slice_to_pos.
Qed.

Lemma get_items_limit_witness :
  get_items Demo.habr (lit "https://habr.com/ru/all/page1")
            HABR_ARTICLE_LINKS_REGEXP 2
    = Ok (take (Z.to_nat 2)
            (findall Demo.habr HABR_ARTICLE_LINKS_REGEXP (lit "index"))) /\
  get_items Demo.habr (lit "https://habr.com/ru/all/page1")
            HABR_ARTICLE_LINKS_REGEXP 0
    = Ok (findall Demo.habr HABR_ARTICLE_LINKS_REGEXP (lit "index")).
Proof.
  apply (get_items_limit Demo.habr (lit "https://habr.com/ru/all/page1")
           HABR_ARTICLE_LINKS_REGEXP (lit "index") (lit "index") 2).
  - vm_compute. reflexivity.
  - reflexivity.
  - lia.
Defined.

Example first_two_links_demo :
  get_items Demo.habr (lit "https://habr.com/ru/all/page1")
            HABR_ARTICLE_LINKS_REGEXP 2 = Ok [lit "/post/1"; lit "/post/2"].
Proof. vm_compute. reflexivity. Qed.

(** C5 does not hold of the code: when the fetch fails, [load_content]
    returns [None] and [get_items] calls [.decode()] on it, which raises
    [AttributeError]; no empty list is returned. *)
Theorem get_items_failed_fetch_raises (E : Env) (link : str) (re : regexp) (n : Z) :
  load_content E link = Ok None ->
  get_items E link re n = Raise AttributeError.
Proof. intros Hload. unfold get_items. by rewrite Hload. Qed.

Lemma get_items_failed_fetch_raises_witness :
  get_items Demo.habr (lit "https://habr.com/gone") IMAGE_REGEXP 0
    = Raise AttributeError.
Proof.
  apply (get_items_failed_fetch_raises Demo.habr (lit "https://habr.com/gone")).
  vm_compute. reflexivity.
Defined.

(** [load_content] does return the error signal exactly when the fetch
    raises [HTTPError] or [URLError]. *)
Lemma load_content_None (E : Env) (url : str) :
  load_content E url = Ok None <->
  urlopen_read E url = Raise HTTPError \/ urlopen_read E url = Raise URLError.
Proof.
  unfold load_content.
  destruct (urlopen_read E url) as [b|[]]; split; intros H;
    try discriminate; try tauto; destruct H; discriminate.
Qed.

(** ** Runs *)

Section RunFacts.
Variable E : Env.
Variable c : config.

Lemma run_app (sched1 sched2 : list actor) (s : state) :
  run E c (sched1 ++ sched2) s = run E c sched1 s ≫= run E c sched2.
Proof.
  revert s. induction sched1 as [|who sched1 IH]; intros s; simpl; [done|].
  destruct (step E c who s); simpl; [apply IH | done].
Qed.

Lemma reachable_init : reachable E c init.
Proof. by exists []. Qed.

Lemma reachable_step (who : actor) (s s' : state) :
  reachable E c s -> step E c who s = Some s' -> reachable E c s'.
Proof.
  intros [sched Hs] Hstep. exists (sched ++ [who]).
  rewrite run_app, Hs. simpl. by rewrite Hstep.
Qed.

Lemma reachable_run (sched : list actor) (s s' : state) :
  reachable E c s -> run E c sched s = Some s' -> reachable E c s'.
Proof.
  revert s. induction sched as [|who sched IH]; intros s Hs Hrun; simpl in Hrun.
  - by simplify_eq.
  - destruct (step E c who s) as [s1|] eqn:Hstep; [|done].
    eapply IH; [|exact Hrun]. by eapply reachable_step.
Qed.

(** Induction over the states a run can be in. *)
Lemma reachable_invariant (P : state -> Prop) :
  P init ->
  (forall who s s', reachable E c s -> P s -> step E c who s = Some s' -> P s') ->
  forall s, reachable E c s -> P s.
Proof.
  intros Hinit Hstep s [sched Hs]. revert s Hs.
  induction sched as [|who sched IH] using rev_ind; intros s Hs.
  - simpl in Hs. by simplify_eq.
  - rewrite run_app in Hs.
    destruct (run E c sched init) as [s0|] eqn:Hs0; [|done].
    simpl in Hs. destruct (step E c who s0) as [s1|] eqn:H1; [|done].
    cbn in Hs. simplify_eq.
    eapply Hstep; [by exists sched | by apply IH | done].
Qed.

(** What a step of a worker does to the state. *)
Lemma worker_moves_inv (k : nat) (s s' : state) :
  step E c (Worker k) s = Some s' ->
  exists ws q ws' q' w',
    pool s !! k = Some ws /\ provider s = Some q /\
    start_image_loader_step E c k ws q (shared s) = Some (ws', q', w') /\
    s' = {| sup := sup s; provider := Some q';
            pool := <[k := ws']> (pool s); shared := w' |}.
Proof.
  simpl. intros H.
  destruct (pool s !! k) as [ws|] eqn:Hws; [|done].
  destruct (provider s) as [q|] eqn:Hq; [|done]. cbn in H.
  destruct (start_image_loader_step E c k ws q (shared s)) as [[[ws' q'] w']|] eqn:Hw;
    [|done].
  cbn in H. simplify_eq. by exists ws, q, ws', q', w'.
Qed.

Lemma run_scraper_step_moves (s s' : state) :
  run_scraper_step E c s = Some s' <-> run_scraper_moves E c s s'.
Proof.
  split.
  - unfold run_scraper_step. intros H.
    destruct (sup s) eqn:Hsup; try done.
    + simplify_eq. by constructor.
    + destruct (fetch_articles E c) eqn:Hf; simplify_eq; by econstructor.
    + destruct (Z.ltb_spec (Z.of_nat i) (Z.min (threads c) (articles_count c)));
        simplify_eq; by econstructor.
    + destruct (provider s) as [q|] eqn:Hq; [|done]. cbn in H.
      destruct (graceful_kill (shared s) || is_finish q) eqn:Hb;
        simplify_eq; rewrite <- ?Hq; by econstructor.
    + destruct (pool s !! i) as [th|] eqn:Hth.
      * destruct (terminated th) eqn:Ht; simplify_eq. by econstructor.
      * simplify_eq. by econstructor.
  - unfold run_scraper_step.
    destruct 1 as [H|e H Hf|articles H Hf|i H Hlt|i H Hge|q H Hq Hb
                   |q H Hq Hb|i th H Hth Ht|i H Hth];
      rewrite H; try done.
    + by rewrite Hf.
    + by rewrite Hf.
    + by destruct (Z.ltb_spec (Z.of_nat i) (Z.min (threads c) (articles_count c)));
        [|lia].
    + by destruct (Z.ltb_spec (Z.of_nat i) (Z.min (threads c) (articles_count c)));
        [lia|].
    + rewrite Hq. cbn. by rewrite Hb.
    + rewrite Hq. cbn. by rewrite Hb.
    + by rewrite Hth, Ht.
    + by rewrite Hth.
Qed.

Lemma signal_step_inv (s s' : state) :
  step E c Signal s = Some s' ->
  handlers_installed (sup s) = true /\
  s' = {| sup := sup s; provider := provider s; pool := pool s;
          shared := (exit_gracefully (shared s)).2 |}.
Proof.
  simpl. destruct (handlers_installed (sup s)); [|done].
  intros H. by simplify_eq.
Qed.

Lemma terminated_no_step (k : nat) (ws : wstate) (q : list Article) (w : world) :
  terminated ws = true -> start_image_loader_step E c k ws q w = None.
Proof. by destruct ws. Qed.

Lemma start_image_loader_step_running (k : nat) (ws ws' : wstate) (q q' : list Article)
    (w w' : world) :
  start_image_loader_step E c k ws q w = Some (ws', q', w') -> terminated ws = false.
Proof.
  intros Hw. destruct (terminated ws) eqn:Ht; [|done].
  by rewrite terminated_no_step in Hw.
Qed.

Lemma joined_invariant (s : state) : reachable E c s -> joined s.
Proof.
  apply reachable_invariant; [done|].
  intros who s0 s' _ IH Hstep. unfold joined in *. destruct who.
  - (* the main thread *)
    apply run_scraper_step_moves in Hstep.
    destruct Hstep as [H|e H Hf|articles H Hf|i H Hlt|i H Hge|q H Hq Hb
                       |q H Hq Hb|i th H Hth Ht|i H Hth];
      rewrite H in IH; simpl; try done.
    + intros j ws Hj. lia.
    + by rewrite H.
    + intros j ws Hj Hlook.
      destruct (decide (j = i)) as [->|]; [by simplify_eq|].
      apply (IH j); [lia | done].
    + intros j ws Hlook. apply (IH j); [|done].
      apply lookup_lt_Some in Hlook. apply lookup_ge_None in Hth. lia.
  - (* a worker *)
    apply worker_moves_inv in Hstep
      as (ws & q & ws' & q' & w' & Hws & Hq & Hw & ->).
    apply start_image_loader_step_running in Hw. simpl.
    destruct (sup s0) eqn:Hsup; try done; try (by rewrite IH in Hws).
    + intros j ws0 Hj Hlook.
      destruct (decide (j = k)) as [->|Hne].
      * specialize (IH k ws Hj Hws). congruence.
      * rewrite list_lookup_insert_ne in Hlook by done. by eapply IH.
    + intros j ws0 Hlook.
      destruct (decide (j = k)) as [->|Hne].
      * specialize (IH k ws Hws). congruence.
      * rewrite list_lookup_insert_ne in Hlook by done. by eapply IH.
  - (* the signal *)
    apply signal_step_inv in Hstep as [_ ->]. exact IH.
Qed.
End RunFacts.

Section Shape.
Variable E : Env.
Variable c : config.

Lemma shape_invariant (s : state) : reachable E c s -> shape E c s.
Proof.
  apply reachable_invariant; [done|].
  intros who s0 s' _ IH Hstep. unfold shape, started_count in *. destruct who.
  - apply run_scraper_step_moves in Hstep.
    destruct Hstep as [H|e H Hf|articles H Hf|i H Hlt|i H Hge|q H Hq Hb
                       |q H Hq Hb|i th H Hth Ht|i H Hth];
      rewrite H in IH; simpl; try done.
    + tauto.
    + split; [done|]. split; [lia | by eexists].
    + destruct IH as (Hlen & Hle & Hq). rewrite length_app. simpl.
      split; [lia|]. split; [lia | done].
    + destruct IH as (Hlen & Hle & Hq). split; [lia | done].
    + by rewrite H.
  - apply worker_moves_inv in Hstep
      as (ws & q & ws' & q' & w' & Hws & Hq & Hw & ->).
    simpl. rewrite length_insert.
    destruct (sup s0); try (destruct IH as [IH _]; by rewrite IH in Hws);
      try (split; [tauto|]); try (split; [tauto|]); by eexists.
  - apply signal_step_inv in Hstep as [_ ->]. exact IH.
Qed.

Lemma started_workers (s : state) :
  reachable E c s ->
  sup s = SPoll \/ (exists i, sup s = SJoin i) \/ sup s = SReturned ->
  length (pool s) = Z.to_nat (Z.min (threads c) (articles_count c)).
Proof.
  intros Hs Hsup. apply shape_invariant in Hs. unfold shape, started_count in Hs.
  destruct Hsup as [H|[[i H]|H]]; rewrite H in Hs; lia.
Qed.

Lemma provider_built (s : state) (k : nat) (ws : wstate) :
  reachable E c s -> pool s !! k = Some ws -> is_Some (provider s).
Proof.
  intros Hs Hws. apply shape_invariant in Hs. unfold shape in Hs.
  destruct (sup s); try tauto; destruct Hs as [Hs _]; by rewrite Hs in Hws.
Qed.

(** A thread that is over stays as it is, and never moves again. *)
Lemma terminated_stays (who : actor) (s s' : state) (k : nat) (ws : wstate) :
  reachable E c s ->
  pool s !! k = Some ws -> terminated ws = true ->
  step E c who s = Some s' ->
  who <> Worker k /\ pool s' !! k = Some ws.
Proof.
  intros Hs Hws Ht Hstep. destruct who.
  - split; [done|]. apply run_scraper_step_moves in Hstep.
    destruct Hstep; simpl; try done.
    + apply shape_invariant in Hs. unfold shape in Hs.
      match goal with H : sup s = SFetch |- _ => rewrite H in Hs end.
      destruct Hs as [Hs _]. by rewrite Hs in Hws.
    + by apply lookup_app_l_Some.
  - apply worker_moves_inv in Hstep
      as (ws0 & q & ws' & q' & w' & Hws0 & Hq & Hw & ->).
    destruct (decide (k0 = k)) as [->|Hne].
    + simplify_eq. by rewrite terminated_no_step in Hw.
    + split; [congruence|]. simpl. by rewrite list_lookup_insert_ne.
  - apply signal_step_inv in Hstep as [_ ->]. done.
Qed.

Lemma terminated_forever (sched : list actor) (s s' : state) (k : nat) (ws : wstate) :
  reachable E c s ->
  pool s !! k = Some ws -> terminated ws = true ->
  run E c sched s = Some s' ->
  (Worker k ∉ sched) /\ pool s' !! k = Some ws.
Proof.
  revert s. induction sched as [|who sched IH]; intros s Hs Hws Ht Hrun.
  - simpl in Hrun. simplify_eq. split; [apply not_elem_of_nil | done].
  - simpl in Hrun. destruct (step E c who s) as [s1|] eqn:Hstep; [|done].
    cbn in Hrun.
    destruct (terminated_stays who s s1 k ws Hs Hws Ht Hstep) as [Hwho Hws1].
    destruct (IH s1) as [Hnot Hend]; try done.
    { by eapply reachable_step. }
    split; [|done]. apply not_elem_of_cons. split; [congruence | done].
Qed.
End Shape.

(** C2: when [run_scraper] has returned, every thread of the pool, that
    is every worker it started, is over (its target returned or raised);
    [join] lets the main thread pass only then. *)
Theorem supervisor_joins_all (E : Env) (c : config) (s : state) :
  reachable E c s ->
  sup s = SReturned ->
  length (pool s) = Z.to_nat (Z.min (threads c) (articles_count c)) /\
  Forall (fun th => terminated th = true) (pool s).
Proof.
  intros Hs Hsup. split.
  - apply (started_workers E c); [done | tauto].
  - pose proof (joined_invariant E c s Hs) as Hj. unfold joined in Hj.
    rewrite Hsup in Hj. apply Forall_lookup. intros k th. apply Hj.
Qed.

Lemma supervisor_joins_all_witness :
  length (pool Demo.clean_end)
    = Z.to_nat (Z.min (threads Demo.one_worker) (articles_count Demo.one_worker)) /\
  Forall (fun th => terminated th = true) (pool Demo.clean_end).
Proof.
  apply (supervisor_joins_all Demo.habr Demo.one_worker Demo.clean_end).
  - exists Demo.one_worker_schedule. vm_compute. reflexivity.
  - reflexivity.
Defined.

(** A cancelled run joins its workers too. *)
Example cancelled_run_joins :
  (fun s => (sup s, pool s, graceful_kill (shared s))) <$>
    run Demo.habr Demo.one_worker
        ([Main; Main; Signal; Main; Main; Main] ++ Demo.alone 0 3 ++ [Main; Main])
        init
  = Some (SReturned, [WDone], true).
Proof. vm_compute. reflexivity. Qed.

(** While a worker is still running, [join] does not let the main
    thread pass. *)
Example join_waits :
  (fun s => (sup s, pool s)) <$>
    run Demo.habr Demo.one_worker
        ([Main; Main; Signal; Main; Main; Main] ++ Demo.alone 0 2) init
    = Some (SJoin 0, [WFinish]) /\
  run Demo.habr Demo.one_worker
      ([Main; Main; Signal; Main; Main; Main] ++ Demo.alone 0 2 ++ [Main]) init
    = None.
Proof. vm_compute. done. Qed.

(** ** The size of the pool *)

Lemma take_length_le {A} (n : nat) (l : list A) : (length (take n l) <= n)%nat.
Proof. rewrite length_take. lia. Qed.

Lemma limited_items_length (E : Env) (link : str) (re : regexp) (n : Z)
    (found : list str) :
  0 < n -> get_items E link re n = Ok found -> Z.of_nat (length found) <= n.
Proof.
  intros Hn. unfold get_items.
  destruct (load_content E link) as [[b|]|]; try done. simpl.
  destruct (decode E b) as [content|]; [|done].
  destruct (Z.eqb_spec n 0); [lia|]. rewrite slice_to_pos by done.
  intros H. simplify_eq.
  pose proof (take_length_le (Z.to_nat n) (findall E re content)). lia.
Qed.

(** The links of [get_articles_links n] are at most [n]. *)
Lemma get_articles_links_length (E : Env) (n : Z) (links : list str) :
  get_articles_links E n = Ok links -> Z.of_nat (length links) <= Z.max 0 n.
Proof.
  revert links. funelim (get_articles_links E n); intros links.
  - destruct (get_items E _ HABR_ARTICLE_LINKS_REGEXP (Z.min n 20))
      as [found|] eqn:Hitems; [|done].
    destruct (get_articles_links E (n - 20)) as [rest|] eqn:Hrest; [|done].
    intros Hl. simplify_eq.
    apply limited_items_length in Hitems; [|lia].
    specialize (H found rest eq_refl).
    rewrite length_app, length_fmap. unfold str in *. lia.
  - intros Hl. simplify_eq. simpl. lia.
Qed.

Lemma get_articles_info_length (E : Env) (links : list str) (articles : list Article) :
  get_articles_info E links = Ok articles -> length articles = length links.
Proof.
  revert articles. induction links as [|l links IH]; intros articles; simpl.
  - intros H. by simplify_eq.
  - destruct (get_items E l ARTICLE_TITLE_REGEXP 0) as [[|t ts]|]; try done.
    simpl. destruct (parse_images E l); [|done]. simpl.
    destruct (get_articles_info E links) as [rest|]; [|done]. simpl.
    intros H. simplify_eq. simpl. f_equal. by apply IH.
Qed.

(** The queue never holds more than [articles_count] articles; it holds
    fewer whenever a page has fewer links than asked for. *)
Lemma fetched_at_most (E : Env) (c : config) (articles : list Article) :
  fetch_articles E c = Ok articles ->
  Z.of_nat (length articles) <= Z.max 0 (articles_count c).
Proof.
  unfold fetch_articles.
  destruct (get_articles_links E (articles_count c)) as [links|] eqn:Hl; [|done].
  cbn. intros Hi. apply get_articles_info_length in Hi.
  apply get_articles_links_length in Hl. lia.
Qed.

(** C3 does not hold of the code: the pool is clamped to the count asked
    for, not to the articles found.  On a site whose page lists three
    articles, ten articles asked for and ten threads start ten workers
    for a queue of three. *)
Theorem ten_workers_for_three_articles :
  (fun s => (sup s, provider s, pool s)) <$>
    run Demo.habr Demo.ten_workers (replicate 13 Main) init
  = Some (SPoll, Some [Demo.post1; Demo.post2; Demo.post3], replicate 10 WStart).
Proof. vm_compute. reflexivity. Qed.

(** With three articles asked for, the same site gets three workers. *)
Example three_workers_for_three_articles :
  (fun s => (sup s, length <$> provider s, pool s)) <$>
    run Demo.habr {| threads := 10; articles_count := 3; out_dir := Demo.out |}
        (replicate 6 Main) init
  = Some (SPoll, Some 3%nat, replicate 3 WStart).
Proof. vm_compute. reflexivity. Qed.

(** ** A page without title *)

Lemma get_articles_info_no_title (E : Env) (links : list str) (link : str) :
  link ∈ links -> no_title E link ->
  exists e, get_articles_info E links = Raise e.
Proof.
  intros Hin Hno. induction links as [|l links IH]; [by apply elem_of_nil in Hin|].
  simpl. apply elem_of_cons in Hin as [<-|Hin].
  - unfold no_title in Hno.
    destruct (get_items E link ARTICLE_TITLE_REGEXP 0) as [[|t ts]|e];
      simpl; by eauto.
  - destruct (get_items E l ARTICLE_TITLE_REGEXP 0) as [[|t ts]|e];
      simpl; eauto.
    destruct (parse_images E l); simpl; eauto.
    destruct (IH Hin) as [e ->]. simpl. eauto.
Qed.

Section Aborted.
Variable E : Env.
Variable c : config.
Variable e : exn.
Hypothesis fetch_raises : fetch_articles E c = Raise e.

Lemma nothing_started_invariant (s : state) :
  reachable E c s -> nothing_started e s.
Proof using fetch_raises.
  apply reachable_invariant; [unfold nothing_started; simpl; tauto|].
  intros who s0 s' _ (Hq & Hpool & Hatt & Hdirs & Hsup) Hstep.
  unfold nothing_started. destruct who.
  - apply run_scraper_step_moves in Hstep.
    destruct Hstep; simpl; intuition congruence.
  - apply worker_moves_inv in Hstep
      as (ws & q & ws' & q' & w' & Hws & _). by rewrite Hpool in Hws.
  - apply signal_step_inv in Hstep as [_ ->]. simpl. tauto.
Qed.

Lemma fetch_step_raises (s : state) :
  sup s = SFetch ->
  exists s', step E c Main s = Some s' /\ sup s' = SRaised e.
Proof using fetch_raises.
  intros Hsup. eexists. split.
  - apply run_scraper_step_moves. by apply main_fetch_raise.
  - done.
Qed.
End Aborted.

(** C8: if one of the article pages gives no title, building the list of
    articles raises, the error leaves [run_scraper] from the fetch step,
    and in every state of such a run the queue is not built, no worker is
    started and no directory or download was attempted. *)
Theorem untitled_page_aborts_run (E : Env) (c : config) (links : list str) (link : str) :
  get_articles_links E (articles_count c) = Ok links ->
  link ∈ links ->
  no_title E link ->
  exists e,
    get_articles_info E links = Raise e /\
    (forall s, reachable E c s ->
       provider s = None /\ pool s = [] /\
       attempts (shared s) = [] /\ made_dirs (shared s) = [] /\
       (sup s = SInit \/ sup s = SFetch \/ sup s = SRaised e)) /\
    (forall s, reachable E c s -> sup s = SFetch ->
       exists s', step E c Main s = Some s' /\ sup s' = SRaised e).
Proof.
  intros Hlinks Hin Hno.
  destruct (get_articles_info_no_title E links link Hin Hno) as [e He].
  assert (Hf : fetch_articles E c = Raise e).
  { unfold fetch_articles. rewrite Hlinks. exact He. }
  exists e. split; [done|]. split.
  - intros s Hs. by apply (nothing_started_invariant E c e Hf).
  - intros s _ Hsup. by apply fetch_step_raises.
Qed.

Lemma untitled_page_aborts_run_witness :
  exists e,
    get_articles_info Demo.habr_untitled
      [lit "https://habr.com/post/1"; lit "https://habr.com/post/2"] = Raise e /\
    (forall s, reachable Demo.habr_untitled Demo.two_articles s ->
       provider s = None /\ pool s = [] /\
       attempts (shared s) = [] /\ made_dirs (shared s) = [] /\
       (sup s = SInit \/ sup s = SFetch \/ sup s = SRaised e)) /\
    (forall s, reachable Demo.habr_untitled Demo.two_articles s -> sup s = SFetch ->
       exists s', step Demo.habr_untitled Demo.two_articles Main s = Some s' /\
                  sup s' = SRaised e).
Proof.
  apply (untitled_page_aborts_run Demo.habr_untitled Demo.two_articles
           [lit "https://habr.com/post/1"; lit "https://habr.com/post/2"]
           (lit "https://habr.com/post/2")).
  - vm_compute. reflexivity.
  - rewrite !elem_of_cons. tauto.
  - vm_compute. exact I.
Defined.

Example untitled_run :
  sup <$> run Demo.habr_untitled Demo.two_articles [Main; Main] init
  = Some (SRaised (Exception (lit "title does not exists in: https://habr.com/post/2"))).
Proof. vm_compute. reflexivity. Qed.

(** ** A download that fails *)

(** C4, as the code has it: nothing catches the error of a download.  The
    step that attempts resource [i] and fails ends the worker with that
    error after recording the attempt, and in every continuation of the
    run this worker never moves again, so the resources after [i] are not
    attempted; the other threads go on. *)
Theorem failed_download_ends_worker (E : Env) (c : config) (s : state)
    (k : nat) (a : Article) (i : nat) (l : str) (e : exn) :
  reachable E c s ->
  pool s !! k = Some (WDownload a i) ->
  images_links a !! i = Some l ->
  urlretrieve E l (image_path (target_dir c a) i) = Some e ->
  exists s',
    step E c (Worker k) s = Some s' /\
    pool s' !! k = Some (WDead e) /\
    attempts (shared s') =
      attempts (shared s) ++ [(l, image_path (target_dir c a) i)] /\
    forall sched s'',
      run E c sched s' = Some s'' ->
      (Worker k ∉ sched) /\ pool s'' !! k = Some (WDead e).
Proof.
  intros Hs Hws Hl Hfail.
  destruct (provider_built E c s k _ Hs Hws) as [q Hq].
  assert (Hstep : step E c (Worker k) s =
            Some {| sup := sup s; provider := Some q;
                    pool := <[k := WDead e]> (pool s);
                    shared := {| graceful_kill := graceful_kill (shared s);
                                 log := log (shared s);
                                 made_dirs := made_dirs (shared s);
                                 attempts := attempts (shared s) ++
                                   [(l, image_path (target_dir c a) i)] |} |}).
  { simpl. rewrite Hws, Hq. cbn. rewrite Hl. unfold download_image.
    by rewrite Hfail. }
  eexists. split; [exact Hstep|].
  assert (Hdead : pool {| sup := sup s; provider := Some q;
                          pool := <[k := WDead e]> (pool s);
                          shared := {| graceful_kill := graceful_kill (shared s);
                                 log := log (shared s);
                                 made_dirs := made_dirs (shared s);
                                 attempts := attempts (shared s) ++
                                   [(l, image_path (target_dir c a) i)] |} |}
                  !! k = Some (WDead e)).
  { simpl. apply list_lookup_insert_eq. by eapply lookup_lt_Some. }
  split; [exact Hdead|]. split; [done|].
  intros sched s'' Hrun.
  eapply terminated_forever; [|exact Hdead|done|exact Hrun].
  by eapply reachable_step.
Qed.

Lemma failed_download_ends_worker_witness :
  exists s',
    step Demo.habr_broken Demo.one_worker (Worker 0) Demo.before_download = Some s' /\
    pool s' !! 0%nat = Some (WDead URLError) /\
    attempts (shared s') =
      attempts (shared Demo.before_download) ++
        [(lit "https://habrastorage.org/1a.png",
          image_path (target_dir Demo.one_worker Demo.post1) 0)] /\
    forall sched s'',
      run Demo.habr_broken Demo.one_worker sched s' = Some s'' ->
      (Worker 0 ∉ sched) /\ pool s'' !! 0%nat = Some (WDead URLError).
Proof.
  apply (failed_download_ends_worker Demo.habr_broken Demo.one_worker
           Demo.before_download 0 Demo.post1 0
           (lit "https://habrastorage.org/1a.png") URLError).
  - exists ([Main; Main; Main; Main] ++ Demo.alone 0 7). vm_compute. reflexivity.
  - vm_compute. reflexivity.
  - vm_compute. reflexivity.
  - vm_compute. reflexivity.
Defined.

(** C4 fails as stated: the first of the two images of the article cannot
    be downloaded; the worker ends with the error, the second image is
    never attempted, and the run ends that way. *)
Lemma failed_download_skips_rest :
  run Demo.habr_broken Demo.one_worker Demo.broken_schedule init
    = Some Demo.broken_end /\
  sup Demo.broken_end = SReturned /\
  pool Demo.broken_end = [WDead URLError] /\
  images_links Demo.post1 =
    [lit "https://habrastorage.org/1a.png"; lit "https://habrastorage.org/1b.png"] /\
  attempts (shared Demo.broken_end) =
    [(lit "https://habrastorage.org/1a.png", lit "out/ab/0.jpg")] /\
  forall who, step Demo.habr_broken Demo.one_worker who Demo.broken_end = None.
Proof.
  do 5 (split; [vm_compute; reflexivity|]).
  intros [| [|k] |]; vm_compute; reflexivity.
Qed.

(** ** Where the downloads go *)

Section Targets.
Variable E : Env.
Variable c : config.

(** What one step of a worker can change: it takes the front article
    or leaves the queue alone, it stays with its article or takes the
    one it removed, and it records at most one attempt, for a resource
    of the article it is busy with. *)
Lemma start_image_loader_step_effect (k : nat) (ws ws' : wstate) (q q' : list Article)
    (w w' : world) :
  start_image_loader_step E c k ws q w = Some (ws', q', w') ->
  (q' = q \/ exists a, q = a :: q' /\ (article_of ws' = None \/ article_of ws' = Some a)) /\
  (q' = q -> article_of ws' = None \/ article_of ws' = article_of ws) /\
  (attempts w' = attempts w \/
   exists a i l, article_of ws = Some a /\ images_links a !! i = Some l /\
     attempts w' = attempts w ++ [(l, image_path (target_dir c a) i)]).
Proof.
  intros Hw.
  assert (Hquiet : forall ws0 : wstate,
    article_of ws0 = None \/ article_of ws0 = article_of ws ->
    (q = q \/ exists a, q = a :: q /\
               (article_of ws0 = None \/ article_of ws0 = Some a)) /\
    (q = q -> article_of ws0 = None \/ article_of ws0 = article_of ws) /\
    (attempts w = attempts w \/
     exists a i l, article_of ws = Some a /\ images_links a !! i = Some l /\
       attempts w = attempts w ++ [(l, image_path (target_dir c a) i)])).
  { intros ws0 H0. split; [by left|]. split; [done|]. by left. }
  destruct ws; simpl in Hw.
  - simplify_eq. split; [by left|]. split; [simpl; tauto|]. by left.
  - simplify_eq. apply Hquiet. destruct (graceful_kill w'); simpl; tauto.
  - simplify_eq. apply Hquiet. destruct (Queue_empty q'); simpl; tauto.
  - (* get *)
    destruct q as [|a q0]; [done|]. cbn in Hw. simplify_eq.
    split; [|split; [|by left]].
    + right. exists a. split; [done|]. destruct (images_links a); simpl; tauto.
    + intros Hq. apply (f_equal length) in Hq. simpl in Hq. lia.
  - simplify_eq. split; [by left|]. split; [simpl; tauto|]. by left.
  - (* exists *)
    destruct (exists_before E (target_dir c a) ||
              bool_decide (target_dir c a ∈ made_dirs w));
      simplify_eq; apply Hquiet; simpl; tauto.
  - (* mkdir *)
    unfold os_mkdir in Hw.
    destruct (exists_before E (target_dir c a) ||
              bool_decide (target_dir c a ∈ made_dirs w));
      [|destruct (mkdir E (target_dir c a))];
      simplify_eq; simpl; (split; [by left|]; split; [tauto|]; by left).
  - (* download *)
    destruct (images_links a !! i) as [l|] eqn:Hl.
    + unfold download_image in Hw.
      destruct (urlretrieve E l (image_path (target_dir c a) i));
        simplify_eq; simpl;
        (split; [by left|]; split; [tauto|]; right; by exists a, i, l).
    + simplify_eq. apply Hquiet. simpl. tauto.
  - simplify_eq. split; [by left|]. split; [simpl; tauto|]. by left.
  - simplify_eq. split; [by left|]. split; [simpl; tauto|]. by left.
  - done.
  - done.
Qed.

Lemma targeted_invariant (s : state) : reachable E c s -> targeted E c s.
Proof.
  apply reachable_invariant; [done|].
  intros who s0 s' Hs0 IH Hstep. unfold targeted in *. destruct who.
  - apply run_scraper_step_moves in Hstep.
    destruct Hstep as [H|e H Hf|articles H Hf|i H Hlt|i H Hge|q H Hq Hb
                       |q H Hq Hb|i th H Hth Ht|i H Hth]; simpl; try done.
    + (* the queue is built *)
      apply shape_invariant in Hs0. unfold shape in Hs0. rewrite H in Hs0.
      destruct Hs0 as [_ Hnone]. rewrite Hnone in IH. destruct IH as [_ Hatt].
      rewrite ArticlesProvider_queue.
      exists articles. split; [done|]. split; [done|]. split.
      * intros k ws a Hlook. by rewrite lookup_nil in Hlook.
      * intros url path Hin. rewrite Hatt in Hin. by apply elem_of_nil in Hin.
    + (* a worker is started *)
      destruct (provider s0) as [q|] eqn:Hq0.
      * destruct IH as (articles & Hf & Hq & Hpool & Hatt).
        exists articles. split; [done|]. split; [done|]. split; [|done].
        intros k ws a Hlook Ha.
        apply lookup_app_Some in Hlook as [Hlook|[_ Hlook]]; [by eapply Hpool|].
        apply list_lookup_singleton_Some in Hlook as [_ <-]. done.
      * apply shape_invariant in Hs0. unfold shape in Hs0. rewrite H in Hs0.
        rewrite Hq0 in Hs0. destruct Hs0 as (_ & _ & [? ?]). done.
  - apply worker_moves_inv in Hstep
      as (ws & q & ws' & q' & w' & Hws & Hq & Hw & ->).
    rewrite Hq in IH. destruct IH as (articles & Hf & Hsub & Hpool & Hatt).
    apply start_image_loader_step_effect in Hw as (Hqueue & Hkeep & Hnew). simpl.
    exists articles. split; [done|]. split; [|split].
    + destruct Hqueue as [->|(a & -> & _)]; [done|].
      intros x Hx. apply Hsub. by apply elem_of_cons; right.
    + intros j wsj a Hlook Ha.
      destruct (decide (j = k)) as [->|Hne].
      * rewrite list_lookup_insert_eq in Hlook by (by eapply lookup_lt_Some).
        simplify_eq.
        destruct Hqueue as [Heq|(a0 & -> & [Hn|Hsome])].
        -- destruct (Hkeep Heq) as [Hn|Hsame]; [congruence|].
           eapply Hpool; [exact Hws|congruence].
        -- congruence.
        -- assert (a0 = a) as -> by congruence.
           apply Hsub. by apply elem_of_cons; left.
      * rewrite list_lookup_insert_ne in Hlook by done. by eapply Hpool.
    + intros url path Hin.
      destruct Hnew as [Heq|(a & i & l & Ha & Hl & Heq)];
        rewrite Heq in Hin; [by apply Hatt|].
      apply elem_of_app in Hin as [Hin|Hin]; [by apply Hatt|].
      apply list_elem_of_singleton in Hin. simplify_eq.
      exists a, i. split; [by eapply Hpool|done].
  - apply signal_step_inv in Hstep as [_ ->]. simpl. exact IH.
Qed.

(** Two articles share their directory exactly when their sanitized
    identifiers are the same. *)
Lemma target_dir_same (a b : Article) :
  target_dir c a = target_dir c b <-> sanitize (name a) = sanitize (name b).
Proof.
  unfold target_dir. split; [|by intros ->].
  intros H. by repeat apply app_inv_head in H.
Qed.
End Targets.

Lemma single_component_path (d : str) :
  Path_name {| rooted := false; parts := [d] |} = d /\
  Path_str {| rooted := false; parts := [d] |} = d.
Proof. done. Qed.

(** C6, as the code has it, for an output directory given as a single
    relative name: every download attempted in a run is for a resource of
    a fetched article, and the resource at position [i] of article [a]
    goes to [<output directory>/<sanitized name of a>/<i>.jpg]; another
    article targets the same directory exactly when its sanitized name is
    the same. *)
Theorem downloads_go_to_item_directory (E : Env) (c : config) (d : str)
    (s : state) (url path : str) :
  out_dir c = {| rooted := false; parts := [d] |} ->
  reachable E c s ->
  (url, path) ∈ attempts (shared s) ->
  exists articles a i,
    fetch_articles E c = Ok articles /\
    a ∈ articles /\
    images_links a !! i = Some url /\
    target_dir c a = Path_str (out_dir c) ++ lit "/" ++ sanitize (name a) /\
    path = target_dir c a ++ lit "/" ++ str_of_int (Z.of_nat i) ++ lit ".jpg" /\
    forall b, target_dir c a = target_dir c b <->
              sanitize (name a) = sanitize (name b).
Proof.
  intros Hout Hs Hin.
  pose proof (targeted_invariant E c s Hs) as Ht. unfold targeted in Ht.
  destruct (provider s) as [q|].
  - destruct Ht as (articles & Hf & _ & _ & Hatt).
    destruct (Hatt url path Hin) as (a & i & Ha & Hl & ->).
    exists articles, a, i. split; [done|]. split; [done|]. split; [done|].
    split; [|split; [done|]].
    + unfold target_dir. rewrite Hout.
      by destruct (single_component_path d) as [-> ->].
    + intros b. apply target_dir_same.
  - destruct Ht as [_ Hnil]. rewrite Hnil in Hin. by apply elem_of_nil in Hin.
Qed.

Lemma downloads_go_to_item_directory_witness :
  exists articles a i,
    fetch_articles Demo.habr Demo.two_articles = Ok articles /\
    a ∈ articles /\
    images_links a !! i = Some (lit "https://habrastorage.org/1b.png") /\
    target_dir Demo.two_articles a =
      Path_str (out_dir Demo.two_articles) ++ lit "/" ++ sanitize (name a) /\
    lit "out/ab/1.jpg" =
      target_dir Demo.two_articles a ++ lit "/" ++ str_of_int (Z.of_nat i) ++ lit ".jpg" /\
    forall b, target_dir Demo.two_articles a = target_dir Demo.two_articles b <->
              sanitize (name a) = sanitize (name b).
Proof.
  apply (downloads_go_to_item_directory Demo.habr Demo.two_articles (lit "out")
           Demo.two_articles_end).
  - reflexivity.
  - exists Demo.two_articles_schedule. vm_compute. reflexivity.
  - apply list_elem_of_In. vm_compute. tauto.
Defined.

(** C6 fails as stated: the two articles are distinct, with distinct
    names, and both are downloaded into [out/ab]; the first image of the
    second even takes the place of the first image of the first. *)
Lemma distinct_items_same_directory :
  run Demo.habr Demo.two_articles Demo.two_articles_schedule init
    = Some Demo.two_articles_end /\
  sup Demo.two_articles_end = SReturned /\
  fetch_articles Demo.habr Demo.two_articles = Ok [Demo.post1; Demo.post2] /\
  name Demo.post1 <> name Demo.post2 /\
  target_dir Demo.two_articles Demo.post1 = lit "out/ab" /\
  target_dir Demo.two_articles Demo.post2 = lit "out/ab" /\
  attempts (shared Demo.two_articles_end) =
    [(lit "https://habrastorage.org/1a.png", lit "out/ab/0.jpg");
     (lit "https://habrastorage.org/1b.png", lit "out/ab/1.jpg");
     (lit "https://habrastorage.org/2a.png", lit "out/ab/0.jpg")].
Proof.
  do 3 (split; [vm_compute; reflexivity|]).
  split; [vm_compute; discriminate|].
  do 2 (split; [vm_compute; reflexivity|]).
  vm_compute. reflexivity.
Qed.

(** [save_images] puts the same article below the whole output path. *)
Example save_images_nested :
  attempts (save_images Demo.habr [Demo.post2] (lit "data/out") world0).2
  = [(lit "https://habrastorage.org/2a.png", lit "data/out/ab/0.jpg")].
Proof. vm_compute. reflexivity. Qed.

(** With an output directory of several components the worker uses only
    the last one: its downloads do not go below the directory given. *)
Example nested_output_directory :
  let given := {| rooted := false; parts := [lit "data"; lit "out"] |} in
  Path_str given = lit "data/out" /\
  target_dir {| threads := 1; articles_count := 1; out_dir := given |} Demo.post2
    = lit "out/ab".
Proof. vm_compute. done. Qed.

(** ** [download_all_images], and the worker running it *)

Section Downloads.
Variable E : Env.

Lemma download_all_images_unfold (links : list str) (out_dir : str) (w : world) :
  download_all_images E links out_dir w =
    match (if negb (exists_before E out_dir || bool_decide (out_dir ∈ made_dirs w))
           then os_mkdir E out_dir else mret ()) w with
    | (Ok _, w1) => for_each (seq 0 (length links)) (download_at E links out_dir) w1
    | (Raise e, w1) => (Raise e, w1)
    end.
Proof. reflexivity. Qed.

Lemma destinations_lookup (links : list str) (out_dir : str) (i : nat) (l : str) :
  links !! i = Some l ->
  destinations links out_dir !! i = Some (l, image_path out_dir i).
Proof. intros Hl. unfold destinations. by rewrite list_lookup_imap, Hl. Qed.

Lemma destinations_length (links : list str) (out_dir : str) :
  length (destinations links out_dir) = length links.
Proof. unfold destinations. by rewrite length_imap. Qed.

(** The loop from position [i] on: it attempts the resources in order
    up to and including the first that fails, and no other. *)
Lemma download_loop (links : list str) (out_dir : str) (n i : nat) (w : world) :
  (i + n)%nat = length links ->
  exists m r w',
    for_each (seq i n) (download_at E links out_dir) w = (r, w') /\
    (m <= n)%nat /\
    attempts w' = attempts w ++ take m (drop i (destinations links out_dir)) /\
    graceful_kill w' = graceful_kill w /\ log w' = log w /\
    made_dirs w' = made_dirs w /\
    match r with
    | Ok _ =>
        m = n /\
        forall j l, (i <= j)%nat -> links !! j = Some l ->
                    urlretrieve E l (image_path out_dir j) = None
    | Raise e =>
        exists l, links !! (i + m - 1)%nat = Some l /\ (0 < m)%nat /\
                  urlretrieve E l (image_path out_dir (i + m - 1)) = Some e
    end.
Proof.
  revert i w. induction n as [|n IH]; intros i w Hlen.
  - exists 0%nat, (Ok ()), w. simpl. rewrite app_nil_r.
    do 6 (split; [done|]). split; [done|].
    intros j l Hj Hl. apply lookup_lt_Some in Hl. lia.
  - destruct (lookup_lt_is_Some_2 links i) as [l Hl]; [lia|].
    pose proof (destinations_lookup links out_dir i l Hl) as Hd.
    simpl seq. cbn [for_each]. unfold mbind, M_bind.
    unfold download_at at 1. rewrite Hl. unfold download_image at 1.
    destruct (urlretrieve E l (image_path out_dir i)) as [e|] eqn:Hu.
    + exists 1%nat, (Raise e). eexists. split; [done|]. simpl.
      rewrite (drop_S _ _ _ Hd). simpl. rewrite take_0.
      do 5 (split; [done || lia|]).
      exists l. replace (i + 1 - 1)%nat with i by lia.
      split; [done|]. split; [lia|done].
    + destruct (IH (S i) {| graceful_kill := graceful_kill w; log := log w;
                            made_dirs := made_dirs w;
                            attempts := attempts w ++ [(l, image_path out_dir i)] |})
        as (m & r & w' & Hrun & Hm & Hatt & Hk & Hlog & Hdirs & Hr); [lia|].
      exists (S m), r, w'. split; [exact Hrun|]. split; [lia|].
      simpl in Hatt, Hk, Hlog, Hdirs.
      split; [|do 3 (split; [done|])].
      * rewrite Hatt, (drop_S _ _ _ Hd). simpl. by rewrite <- app_assoc.
      * destruct r as [[]|e].
        -- destruct Hr as [-> Hall]. split; [done|].
           intros j l' Hj Hl'. destruct (decide (j = i)) as [->|Hne].
           ++ by simplify_eq.
           ++ apply Hall; [lia|done].
        -- destruct Hr as (l' & Hl' & Hpos & Hfail).
           exists l'. replace (i + S m - 1)%nat with (S i + m - 1)%nat by lia.
           split; [done|]. split; [lia|done].
Qed.

End Downloads.

Example download_all_images_demo :
  (fun '(r, w) => (r, attempts w)) <$>
    Some (download_all_images Demo.habr_broken (images_links Demo.post1)
            (lit "out/ab") world0)
  = Some (Raise URLError, [(lit "https://habrastorage.org/1a.png", lit "out/ab/0.jpg")]).
Proof. vm_compute. reflexivity. Qed.

Section WorkerRefines.
Variable E : Env.
Variable c : config.
Variable k : nat.

Lemma worker_download_loop (a : Article) (q : list Article) (n i : nat) (w : world) :
  (i + n)%nat = length (images_links a) ->
  exists m,
    start_image_loader_steps E c m k (WDownload a i) q w =
      Some (after_download a q
              (for_each (seq i n)
                 (download_at E (images_links a) (target_dir c a)) w)).
Proof.
  revert i w. induction n as [|n IH]; intros i w Hlen.
  - exists 1%nat. simpl.
    rewrite (proj2 (lookup_ge_None (images_links a) i)) by lia. done.
  - destruct (lookup_lt_is_Some_2 (images_links a) i) as [l Hl]; [lia|].
    simpl seq. cbn [for_each]. unfold mbind at 1, M_bind.
    unfold download_at at 1. rewrite Hl.
    destruct (download_image E l (image_path (target_dir c a) i) w)
      as [[[]|e] w1] eqn:Hd.
    + destruct (IH (S i) w1) as [m Hm]; [lia|].
      exists (S m). cbn [start_image_loader_steps]. simpl start_image_loader_step.
      rewrite Hl, Hd. exact Hm.
    + exists 1%nat. cbn [start_image_loader_steps]. simpl start_image_loader_step.
      by rewrite Hl, Hd.
Qed.

(** From the test for the directory on, a worker left alone does what
    [download_all_images] does on the links of its article and the
    directory [out_path.name + '/' + directory_name], step by step. *)
Lemma worker_runs_download_all_images (a : Article) (q : list Article) (w : world) :
  exists n,
    start_image_loader_steps E c n k (WExists a) q w =
      Some (after_download a q
              (download_all_images E (images_links a) (target_dir c a) w)).
Proof.
  rewrite download_all_images_unfold.
  destruct (exists_before E (target_dir c a) ||
            bool_decide (target_dir c a ∈ made_dirs w)) eqn:Hex; cbn [negb].
  - destruct (worker_download_loop a q (length (images_links a)) 0 w eq_refl)
      as [m Hm].
    exists (S m). cbn [start_image_loader_steps]. simpl start_image_loader_step.
    unfold os_path_exists. rewrite Hex. exact Hm.
  - destruct (os_mkdir E (target_dir c a) w) as [[[]|e] w1] eqn:Hmk.
    + destruct (worker_download_loop a q (length (images_links a)) 0 w1 eq_refl)
        as [m Hm].
      exists (S (S m)). cbn [start_image_loader_steps]. simpl start_image_loader_step.
      unfold os_path_exists. rewrite Hex. cbn [mbind option_bind].
      cbn [start_image_loader_steps]. simpl start_image_loader_step. rewrite Hmk. exact Hm.
    + exists 2%nat. cbn [start_image_loader_steps]. simpl start_image_loader_step.
      unfold os_path_exists. rewrite Hex. cbn [mbind option_bind].
      cbn [start_image_loader_steps]. simpl start_image_loader_step. by rewrite Hmk.
Qed.

(** The steps of a worker alone are steps of the run. *)
Lemma run_worker_alone (n : nat) (s : state) (ws ws' : wstate)
    (q q' : list Article) (w' : world) :
  pool s !! k = Some ws -> provider s = Some q ->
  start_image_loader_steps E c n k ws q (shared s) = Some (ws', q', w') ->
  run E c (replicate n (Worker k)) s =
    Some {| sup := sup s; provider := Some q';
            pool := <[k := ws']> (pool s); shared := w' |}.
Proof.
  revert s ws q. induction n as [|n IH]; intros s ws q Hws Hq Hsteps.
  - simpl in Hsteps. simplify_eq. simpl.
    rewrite list_insert_id by done. destruct s. simpl in *. by subst.
  - cbn [start_image_loader_steps] in Hsteps.
    destruct (start_image_loader_step E c k ws q (shared s)) as [[[ws1 q1] w1]|] eqn:Hw;
      [|done].
    cbn in Hsteps. simpl replicate. cbn [run].
    assert (Hstep : step E c (Worker k) s =
              Some {| sup := sup s; provider := Some q1;
                      pool := <[k := ws1]> (pool s); shared := w1 |}).
    { simpl. rewrite Hws, Hq. cbn. by rewrite Hw. }
    rewrite Hstep. cbn [mbind option_bind].
    erewrite IH; [|simpl..|exact Hsteps].
    + simpl. by rewrite list_insert_insert_eq.
    + apply list_lookup_insert_eq. by eapply lookup_lt_Some.
    + done.
Qed.
End WorkerRefines.

(** ** The queue in a run *)

(** In a run the queue is always what is left of the fetched articles
    after some were taken from the front: workers take in FIFO order, and
    nothing is put back or dropped. *)
Lemma queue_is_suffix (E : Env) (c : config) (s : state) (q : list Article) :
  reachable E c s -> provider s = Some q ->
  exists taken, fetch_articles E c = Ok (taken ++ q).
Proof.
  intros Hs. revert q. pattern s. revert s Hs.
  apply reachable_invariant; [done|].
  intros who s0 s' Hs0 IH Hstep q Hq. destruct who.
  - apply run_scraper_step_moves in Hstep.
    destruct Hstep; simpl in Hq; try (by apply IH).
    simplify_eq. rewrite ArticlesProvider_queue. by exists [].
  - apply worker_moves_inv in Hstep
      as (ws & q0 & ws' & q' & w' & Hws & Hq0 & Hw & ->).
    simpl in Hq. simplify_eq. destruct (IH q0 Hq0) as [taken Hf].
    apply start_image_loader_step_effect in Hw as ([->|(a & -> & _)] & _).
    + by exists taken.
    + exists (taken ++ [a]). by rewrite <- app_assoc.
  - apply signal_step_inv in Hstep as [_ ->]. by apply IH.
Qed.

(** The test [empty()] and the call [get()] are two steps.  A worker that
    saw an article in the queue can find it gone: its [get()] blocks, it
    never ends, and the main thread waits in [join] for ever. *)
Example check_then_get_race :
  (fun s => (sup s, provider s, pool s)) <$>
    run Demo.habr Demo.two_workers (Demo.race_schedule ++ Demo.alone 0 8 ++ [Main; Main]) init
    = Some (SJoin 1, Some [], [WDone; WGet]) /\
  (forall s, run Demo.habr Demo.two_workers
               (Demo.race_schedule ++ Demo.alone 0 8 ++ [Main; Main]) init = Some s ->
             step Demo.habr Demo.two_workers Main s = None /\
             forall k, step Demo.habr Demo.two_workers (Worker k) s = None).
Proof.
  split; [vm_compute; reflexivity|].
  intros s Hs. vm_compute in Hs. simplify_eq.
  split; [vm_compute; reflexivity|].
  intros [|[|k]]; vm_compute; reflexivity.
Qed.

(** * Further properties of the code *)

(** ** The sanitizer only deletes *)

Lemma remove_occurrences_sublist (old s : str) :
  remove_occurrences old s `sublist_of` s.
Proof.
  funelim (remove_occurrences old s); simp remove_occurrences; try done.
  destruct (startswith (o :: old') (c :: t)).
  - apply sublist_cons. etrans; [exact H|]. apply sublist_drop.
  - by apply sublist_skip.
Qed.

Lemma remove_occurrences_absent (old s : str) :
  contains old s = false -> remove_occurrences old s = s.
Proof.
  destruct old as [|o old']; [by simp remove_occurrences|].
  induction s as [|c t IH]; [by simp remove_occurrences|].
  intros Hc.
  change (startswith (o :: old') (c :: t) || contains (o :: old') t = false) in Hc.
  apply orb_false_iff in Hc as [Hs Ht].
  simp remove_occurrences. rewrite Hs. by rewrite IH.
Qed.

Lemma remove_occurrences_shorter (old s : str) :
  old <> [] -> contains old s = true ->
  (length (remove_occurrences old s) < length s)%nat.
Proof.
  destruct old as [|o old']; [done|]. intros _.
  induction s as [|c t IH]; [done|].
  intros Hc.
  change (startswith (o :: old') (c :: t) || contains (o :: old') t = true) in Hc.
  simp remove_occurrences.
  destruct (startswith (o :: old') (c :: t)) eqn:Hs.
  - pose proof (sublist_length _ _
      (remove_occurrences_sublist (o :: old') (drop (length old') t))) as Hl.
    rewrite length_drop in Hl. simpl. lia.
  - simpl in Hc. specialize (IH Hc). simpl. lia.
Qed.

Lemma sanitize_loop_sublist (syms : list str) (s : str) :
  foldl (fun directory_name sym => remove_occurrences sym directory_name) s syms
    `sublist_of` s.
Proof.
  revert s. induction syms as [|sym syms IH]; intros s; simpl; [done|].
  etrans; [apply IH|]. apply remove_occurrences_sublist.
Qed.

(** The sanitized name is the name with some characters left out: what
    stays keeps its order, and nothing is added. *)
Theorem sanitize_sublist (name : str) :
  sanitize name `sublist_of` name /\
  (length (sanitize name) <= length name)%nat.
Proof.
  assert (H : sanitize name `sublist_of` name) by apply sanitize_loop_sublist.
  split; [done|]. by apply sublist_length.
Qed.

Lemma sanitize_loop_unchanged (syms : list str) (s : str) :
  Forall (fun sym => sym <> []) syms ->
  foldl (fun directory_name sym => remove_occurrences sym directory_name) s syms = s
  <-> Forall (fun sym => contains sym s = false) syms.
Proof.
  intros Hne. revert s. induction Hne as [|sym syms Hsym Hne IH]; intros s; simpl.
  - split; [by constructor | done].
  - split.
    + intros Heq.
      destruct (contains sym s) eqn:Hc.
      * exfalso.
        pose proof (remove_occurrences_shorter sym s Hsym Hc) as Hlt.
        pose proof (sublist_length _ _
          (sanitize_loop_sublist syms (remove_occurrences sym s))) as Hle.
        rewrite Heq in Hle. lia.
      * rewrite (remove_occurrences_absent _ _ Hc) in Heq.
        constructor; [done|]. by apply IH.
    + intros Hall. apply Forall_cons in Hall as [Hc Hall].
      rewrite (remove_occurrences_absent _ _ Hc). by apply IH.
Qed.

(** A name is left as it is exactly when none of the invalid symbols
    occurs in it. *)
Theorem sanitize_unchanged_iff (name : str) :
  sanitize name = name <->
  forall sym, sym ∈ WINDOWS_DIRECTORY_INVALID_SYMBOLS -> contains sym name = false.
Proof.
  unfold sanitize. rewrite sanitize_loop_unchanged, Forall_forall; [done|].
  unfold WINDOWS_DIRECTORY_INVALID_SYMBOLS.
  repeat (constructor; [by (vm_compute; discriminate)|]). constructor.
Qed.

Example sanitize_keeps_clean_title :
  sanitize (lit "Rust & Go; 100% faster") = lit "Rust & Go; 100% faster".
Proof. vm_compute. reflexivity. Qed.

(** ** [get_items] with any limit *)

(** On a page that was fetched and decoded, [get_items] returns a
    prefix of the matches whatever the limit is, and a negative limit
    [n] leaves out the last [-n] matches. *)
Theorem get_items_prefix (E : Env) (link : str) (re : regexp)
    (b : bytes) (content : str) (n : Z) :
  load_content E link = Ok (Some b) ->
  decode E b = Some content ->
  exists items,
    get_items E link re n = Ok items /\
    items `prefix_of` findall E re content /\
    (n < 0 ->
     items = take (length (findall E re content) - Z.to_nat (- n))
                  (findall E re content)).
Proof.
  intros Hload Hdec. unfold get_items. rewrite Hload. simpl. rewrite Hdec.
  destruct (Z.eqb_spec n 0) as [->|Hn].
  - eexists. split; [done|]. split; [done|lia].
  - eexists. split; [done|]. unfold slice_to.
    destruct (Z.ltb_spec n 0).
    + split; [apply prefix_take|]. intros _. f_equal. lia.
    + split; [apply prefix_take|lia].
Qed.

Lemma get_items_prefix_witness :
  exists items,
    get_items Demo.habr (lit "https://habr.com/ru/all/page1")
              HABR_ARTICLE_LINKS_REGEXP (-1) = Ok items /\
    items `prefix_of` findall Demo.habr HABR_ARTICLE_LINKS_REGEXP (lit "index") /\
    (-1 < 0 ->
     items = take (length (findall Demo.habr HABR_ARTICLE_LINKS_REGEXP (lit "index"))
                   - Z.to_nat (- -1))
                  (findall Demo.habr HABR_ARTICLE_LINKS_REGEXP (lit "index"))).
Proof.
  apply (get_items_prefix Demo.habr (lit "https://habr.com/ru/all/page1")
           HABR_ARTICLE_LINKS_REGEXP (lit "index") (lit "index") (-1)).
  - vm_compute. reflexivity.
  - reflexivity.
Defined.

Example get_items_minus_one :
  get_items Demo.habr (lit "https://habr.com/ru/all/page1")
            HABR_ARTICLE_LINKS_REGEXP (-1) = Ok [lit "/post/1"; lit "/post/2"].
Proof. vm_compute. reflexivity. Qed.

(** Whatever goes wrong in [get_items] is one of three things: the fetch
    failed with [HTTPError] or [URLError] and [.decode()] met [None]
    ([AttributeError]); the body is not UTF-8 ([UnicodeDecodeError]); or
    [urlopen] raised something else, which is passed on. *)
Theorem get_items_errors (E : Env) (link : str) (re : regexp) (n : Z) (e : exn) :
  get_items E link re n = Raise e ->
  (e = AttributeError /\
   (urlopen_read E link = Raise HTTPError \/ urlopen_read E link = Raise URLError)) \/
  (e = UnicodeDecodeError /\
   exists b, urlopen_read E link = Ok b /\ decode E b = None) \/
  (urlopen_read E link = Raise e /\ e <> HTTPError /\ e <> URLError).
Proof.
  unfold get_items, load_content.
  destruct (urlopen_read E link) as [b|e0] eqn:Hu; simpl.
  - destruct (decode E b) eqn:Hd.
    + by destruct (n =? 0).
    + intros H. simplify_eq. right. left. split; [done|]. by exists b.
  - destruct e0; simpl; intros H; simplify_eq;
      first [ left; split; [done|]; tauto
            | right; right; done ].
Qed.

Lemma get_items_errors_witness :
  (AttributeError = AttributeError /\
   (urlopen_read Demo.habr (lit "https://habr.com/gone") = Raise HTTPError \/
    urlopen_read Demo.habr (lit "https://habr.com/gone") = Raise URLError)) \/
  (AttributeError = UnicodeDecodeError /\
   exists b, urlopen_read Demo.habr (lit "https://habr.com/gone") = Ok b /\
             decode Demo.habr b = None) \/
  (urlopen_read Demo.habr (lit "https://habr.com/gone") = Raise AttributeError /\
   AttributeError <> HTTPError /\ AttributeError <> URLError).
Proof.
  apply (get_items_errors Demo.habr (lit "https://habr.com/gone")
           IMAGE_REGEXP 0 AttributeError).
  vm_compute. reflexivity.
Defined.

(** ** The list of links *)

(** Every link of [get_articles_links] is an address on [HABR_MAIN], and
    there are never more than asked for. *)
Theorem get_articles_links_on_habr (E : Env) (n : Z) (links : list str) :
  get_articles_links E n = Ok links ->
  Forall (fun l => HABR_MAIN `prefix_of` l) links /\
  Z.of_nat (length links) <= Z.max 0 n.
Proof.
  intros Hl. split; [|by apply (get_articles_links_length E)].
  revert links Hl. funelim (get_articles_links E n); intros links.
  - destruct (get_items E _ HABR_ARTICLE_LINKS_REGEXP (Z.min n 20))
      as [found|] eqn:Hitems; [|done].
    destruct (get_articles_links E (n - 20)) as [rest|] eqn:Hrest; [|done].
    intros Hl. simplify_eq. apply Forall_app. split.
    + apply Forall_fmap, Forall_true. intros x. exists x. reflexivity.
    + by apply (H found).
  - intros Hl. simplify_eq. constructor.
Qed.

Lemma get_articles_links_on_habr_witness :
  Forall (fun l => HABR_MAIN `prefix_of` l)
    [lit "https://habr.com/post/1"; lit "https://habr.com/post/2"] /\
  Z.of_nat (length [lit "https://habr.com/post/1"; lit "https://habr.com/post/2"])
    <= Z.max 0 2.
Proof.
  apply (get_articles_links_on_habr Demo.habr 2).
  vm_compute. reflexivity.
Defined.

(** When every listing page shows as many links as it is asked for,
    [get_articles_links n] returns exactly [n] links (none for [n <= 0]). *)
Theorem get_articles_links_exact (E : Env) (n : Z) :
  (forall url k, 0 < k <= 20 ->
     exists found, get_items E url HABR_ARTICLE_LINKS_REGEXP k = Ok found /\
                   Z.of_nat (length found) = k) ->
  exists links, get_articles_links E n = Ok links /\
                Z.of_nat (length links) = Z.max 0 n.
Proof.
  intros Hfull. funelim (get_articles_links E n).
  - destruct (Hfull (HABR_MAIN ++ lit "/ru/all/page" ++ str_of_int (n / 20 + 1))
                    (Z.min n 20)) as (found & Hfound & Hlen); [lia|].
    destruct (H found Hfull) as (rest & Hr & Hrest).
    clear Heqcall. rewrite Hfound, Hr.
    eexists. split; [done|].
    rewrite length_app, length_fmap. unfold str in *. lia.
  - exists []. split; [done|]. simpl. lia.
Qed.

Lemma get_articles_links_exact_witness :
  exists links, get_articles_links Demo.listing 45 = Ok links /\
                Z.of_nat (length links) = Z.max 0 45.
Proof.
  apply (get_articles_links_exact Demo.listing 45).
  intros url k Hk. exists (take (Z.to_nat k) (replicate 20 (lit "/post/1"))). split.
  - unfold get_items. simpl. destruct (Z.eqb_spec k 0); [lia|].
    by rewrite slice_to_pos by lia.
  - rewrite length_take, length_replicate. lia.
Defined.

(** The queue never holds more articles than were asked for. *)
Lemma fetched_at_most_witness :
  Z.of_nat (length [Demo.post1; Demo.post2; Demo.post3])
    <= Z.max 0 (articles_count Demo.ten_workers).
Proof.
  apply (fetched_at_most Demo.habr Demo.ten_workers).
  vm_compute. reflexivity.
Defined.

(** ** The list of articles *)

(** When [get_articles_info] returns, there is one article per link, in
    the order of the links; its name is the first title found on its
    page and its images are all the image addresses found there. *)
Theorem get_articles_info_ok (E : Env) (links : list str) (articles : list Article) :
  get_articles_info E links = Ok articles ->
  link <$> articles = links /\
  Forall (fun a =>
            (exists others, get_items E (link a) ARTICLE_TITLE_REGEXP 0
                            = Ok (name a :: others)) /\
            get_items E (link a) IMAGE_REGEXP 0 = Ok (images_links a))
         articles.
Proof.
  revert articles. induction links as [|l links IH]; intros articles; simpl.
  - intros H. by simplify_eq.
  - destruct (get_items E l ARTICLE_TITLE_REGEXP 0) as [[|t ts]|] eqn:Ht; try done.
    simpl. unfold parse_images.
    destruct (get_items E l IMAGE_REGEXP 0) as [imgs|] eqn:Hi; [|done]. simpl.
    destruct (get_articles_info E links) as [rest|]; [|done]. simpl.
    intros H. simplify_eq. destruct (IH rest eq_refl) as [Hlinks Hall].
    split; [simpl; by f_equal|].
    constructor; [|done]. simpl. split; [by exists ts | done].
Qed.

Lemma get_articles_info_ok_witness :
  link <$> [Demo.post1; Demo.post2] =
    [lit "https://habr.com/post/1"; lit "https://habr.com/post/2"] /\
  Forall (fun a =>
            (exists others, get_items Demo.habr (link a) ARTICLE_TITLE_REGEXP 0
                            = Ok (name a :: others)) /\
            get_items Demo.habr (link a) IMAGE_REGEXP 0 = Ok (images_links a))
         [Demo.post1; Demo.post2].
Proof.
  apply (get_articles_info_ok Demo.habr).
  vm_compute. reflexivity.
Defined.

(** The links are worked through in order and the first page without a
    title ends the work: the error names that link, and the links after
    it are not looked at. *)
Theorem get_articles_info_first_untitled (E : Env) (before after : list str)
    (l : str) (articles : list Article) :
  get_articles_info E before = Ok articles ->
  get_items E l ARTICLE_TITLE_REGEXP 0 = Ok [] ->
  get_articles_info E (before ++ l :: after)
    = Raise (Exception (lit "title does not exists in: " ++ l)).
Proof.
  revert articles. induction before as [|x before IH]; intros articles; simpl.
  - intros _ ->. done.
  - destruct (get_items E x ARTICLE_TITLE_REGEXP 0) as [[|t ts]|]; try done.
    simpl. destruct (parse_images E x); [|done]. simpl.
    destruct (get_articles_info E before) as [rest|] eqn:Hb; [|done].
    intros _ Hl. by rewrite (IH rest eq_refl Hl).
Qed.

Lemma get_articles_info_first_untitled_witness :
  get_articles_info Demo.habr_untitled
    ([lit "https://habr.com/post/1"] ++ lit "https://habr.com/post/2"
       :: [lit "https://habr.com/gone"])
  = Raise (Exception (lit "title does not exists in: "
                        ++ lit "https://habr.com/post/2")).
Proof.
  apply (get_articles_info_first_untitled Demo.habr_untitled
           [lit "https://habr.com/post/1"] [lit "https://habr.com/gone"]
           (lit "https://habr.com/post/2")
           [{| link := lit "https://habr.com/post/1"; name := lit "a/b";
               images_links := [] |}]).
  - vm_compute. reflexivity.
  - vm_compute. reflexivity.
Defined.

(** ** Downloading *)


Lemma for_each_cons {A} (x : A) (l : list A) (body : A -> M unit) (w : world) :
  for_each (x :: l) body w =
    match body x w with
    | (Ok _, w1) => for_each l body w1
    | (Raise e, w1) => (Raise e, w1)
    end.
Proof. reflexivity. Qed.

(** What [download_all_images] does to the world, whatever happens. *)
Lemma download_all_images_effect (E : Env) (links : list str) (out_dir : str)
    (w w' : world) (r : result unit) :
  download_all_images E links out_dir w = (r, w') ->
  graceful_kill w' = graceful_kill w /\ log w' = log w /\
  (made_dirs w' = made_dirs w \/
   exists_before E out_dir || bool_decide (out_dir ∈ made_dirs w) = false /\
   made_dirs w' = made_dirs w ++ [out_dir]) /\
  (exists m, attempts w' = attempts w ++ take m (destinations links out_dir) /\
             (r = Ok () -> m = length links)) /\
  (r = Ok () ->
   exists_before E out_dir || bool_decide (out_dir ∈ made_dirs w') = true).
Proof.
  rewrite download_all_images_unfold.
  destruct (exists_before E out_dir || bool_decide (out_dir ∈ made_dirs w))
    eqn:Hex; cbn [negb].
  - unfold mret, M_ret.
    destruct (download_loop E links out_dir (length links) 0 w eq_refl)
      as (m & r0 & w0 & Hrun & Hm & Hatt & Hk & Hlog & Hdirs & Hr).
    rewrite Hrun. intros H. simplify_eq. rewrite drop_0 in Hatt.
    split; [done|]. split; [done|]. split; [by left|]. split.
    + exists m. split; [done|]. intros ->. tauto.
    + intros _. by rewrite Hdirs.
  - unfold os_mkdir. rewrite Hex. destruct (mkdir E out_dir) as [e|].
    + intros H. simplify_eq. split; [done|]. split; [done|]. split; [by left|].
      split; [|done]. exists 0%nat. rewrite take_0, app_nil_r. done.
    + destruct (download_loop E links out_dir (length links) 0
                  {| graceful_kill := graceful_kill w; log := log w;
                     made_dirs := made_dirs w ++ [out_dir];
                     attempts := attempts w |} eq_refl)
        as (m & r0 & w0 & Hrun & Hm & Hatt & Hk & Hlog & Hdirs & Hr).
      rewrite Hrun. intros H. simplify_eq. rewrite drop_0 in Hatt.
      simpl in *. split; [done|]. split; [done|]. split; [by right|]. split.
      * exists m. split; [done|]. intros ->. tauto.
      * intros _. rewrite Hdirs. apply orb_true_iff. right.
        apply bool_decide_eq_true. apply elem_of_app. right.
        by apply list_elem_of_singleton.
Qed.

(** [download_all_images] leaves the flag and the log alone; it makes at
    most the one directory [out_dir], and only when it was absent; its
    attempts are the first ones of [destinations], all of them when it
    returns; and when it returns the directory exists, so that a second
    call does not call [mkdir] again. *)
Theorem download_all_images_frame (E : Env) (links : list str) (out_dir : str)
    (w w' : world) (r : result unit) :
  download_all_images E links out_dir w = (r, w') ->
  graceful_kill w' = graceful_kill w /\ log w' = log w /\
  (made_dirs w' = made_dirs w \/
   exists_before E out_dir || bool_decide (out_dir ∈ made_dirs w) = false /\
   made_dirs w' = made_dirs w ++ [out_dir]) /\
  (exists m, attempts w' = attempts w ++ take m (destinations links out_dir) /\
             (r = Ok () -> m = length links)) /\
  (r = Ok () ->
   forall links2 r2 w2,
     download_all_images E links2 out_dir w' = (r2, w2) ->
     made_dirs w2 = made_dirs w').
Proof.
  intros Hrun.
  destruct (download_all_images_effect E links out_dir w w' r Hrun)
    as (Hk & Hlog & Hdirs & Hatt & Hex).
  do 4 (split; [done|]).
  intros Hok links2 r2 w2 Hrun2. specialize (Hex Hok).
  rewrite download_all_images_unfold, Hex in Hrun2. cbn [negb] in Hrun2.
  unfold mret, M_ret in Hrun2.
  destruct (download_loop E links2 out_dir (length links2) 0 w' eq_refl)
    as (m & r0 & w0 & Hloop & Hm & _ & _ & _ & Hd & Hr).
  rewrite Hloop in Hrun2. by simplify_eq.
Qed.

Lemma download_all_images_frame_witness :
  graceful_kill Demo.after_post1 = graceful_kill world0 /\
  log Demo.after_post1 = log world0 /\
  (made_dirs Demo.after_post1 = made_dirs world0 \/
   exists_before Demo.habr (lit "out/ab") ||
     bool_decide (lit "out/ab" ∈ made_dirs world0) = false /\
   made_dirs Demo.after_post1 = made_dirs world0 ++ [lit "out/ab"]) /\
  (exists m, attempts Demo.after_post1 =
               attempts world0 ++
               take m (destinations (images_links Demo.post1) (lit "out/ab")) /\
             (Ok () = Ok () -> m = length (images_links Demo.post1))) /\
  (Ok () = Ok () ->
   forall links2 r2 w2,
     download_all_images Demo.habr links2 (lit "out/ab") Demo.after_post1 = (r2, w2) ->
     made_dirs w2 = made_dirs Demo.after_post1).
Proof.
  apply (download_all_images_frame Demo.habr (images_links Demo.post1)
           (lit "out/ab") world0 Demo.after_post1 (Ok ())).
  vm_compute. reflexivity.
Defined.

(** ** [save_images] *)

Lemma save_images_unfold (E : Env) (articles : list Article) (out_path : str)
    (w : world) :
  save_images E articles out_path w =
    match (if negb (exists_before E out_path || bool_decide (out_path ∈ made_dirs w))
           then os_mkdir E out_path else mret ()) w with
    | (Ok _, w1) =>
        for_each articles (fun art =>
          match images_links art with
          | [] => mret ()
          | _ => download_all_images E (images_links art)
                   (out_path ++ lit "/" ++ sanitize (name art))
          end) w1
    | (Raise e, w1) => (Raise e, w1)
    end.
Proof. reflexivity. Qed.

(** Articles without images are passed over: [save_images] does on a
    list what it does on the articles of the list that have images. *)
Theorem save_images_skips_empty (E : Env) (articles : list Article)
    (out_path : str) (w : world) :
  save_images E (filter (fun a => images_links a <> []) articles) out_path w
  = save_images E articles out_path w.
Proof.
  rewrite !save_images_unfold.
  destruct ((if negb (exists_before E out_path ||
                      bool_decide (out_path ∈ made_dirs w))
             then os_mkdir E out_path else mret ()) w) as [[[]|e] w1]; [|done].
  revert w1. induction articles as [|a l IH]; intros w1; [done|].
  destruct (images_links a) as [|x xs] eqn:Ha.
  - rewrite filter_cons_False by (rewrite Ha; tauto).
    rewrite IH, (for_each_cons a l), Ha. done.
  - rewrite filter_cons_True by (by rewrite Ha).
    rewrite !for_each_cons, Ha.
    destruct (download_all_images E (x :: xs)
                (out_path ++ lit "/" ++ sanitize (name a)) w1) as [[[]|e] w2];
      [apply IH | done].
Qed.




(** ** What a run never undoes *)

Lemma write_log_world (message : str) (w : world) :
  graceful_kill (write_log message w).2 = graceful_kill w /\
  log w `prefix_of` log (write_log message w).2 /\
  made_dirs (write_log message w).2 = made_dirs w /\
  attempts (write_log message w).2 = attempts w.
Proof. simpl. split; [done|]. split; [by apply prefix_app_r|done]. Qed.

(** A step of a worker leaves the flag alone and only adds to the log,
    to the directories and to the attempts. *)
Lemma start_image_loader_step_world (E : Env) (c : config) (k : nat)
    (ws ws' : wstate) (q q' : list Article) (w w' : world) :
  start_image_loader_step E c k ws q w = Some (ws', q', w') ->
  graceful_kill w' = graceful_kill w /\
  log w `prefix_of` log w' /\
  made_dirs w `prefix_of` made_dirs w' /\
  attempts w `prefix_of` attempts w'.
Proof.
  intros Hw.
  assert (Hlog : forall m, w' = (write_log m w).2 ->
    graceful_kill w' = graceful_kill w /\ log w `prefix_of` log w' /\
    made_dirs w `prefix_of` made_dirs w' /\ attempts w `prefix_of` attempts w').
  { intros m ->. destruct (write_log_world m w) as (-> & Hl & -> & ->). done. }
  destruct ws; simpl in Hw; simplify_eq; try (by eapply Hlog); try done.
  - destruct q as [|a q0]; [done|]. cbn in Hw. by simplify_eq.
  - destruct (exists_before E (target_dir c a) ||
              bool_decide (target_dir c a ∈ made_dirs w)); by simplify_eq.
  - unfold os_mkdir in Hw.
    destruct (exists_before E (target_dir c a) ||
              bool_decide (target_dir c a ∈ made_dirs w));
      [|destruct (mkdir E (target_dir c a))]; simplify_eq; simpl; try done.
    split; [done|]. split; [done|]. split; [by apply prefix_app_r|done].
  - destruct (images_links a !! i) as [l|]; [|by simplify_eq].
    unfold download_image in Hw.
    destruct (urlretrieve E l (image_path (target_dir c a) i));
      simplify_eq; simpl;
      (split; [done|]; split; [done|]; split; [done|]; by apply prefix_app_r).
Qed.

Lemma step_world (E : Env) (c : config) (who : actor) (s s' : state) :
  step E c who s = Some s' ->
  (graceful_kill (shared s) = true -> graceful_kill (shared s') = true) /\
  log (shared s) `prefix_of` log (shared s') /\
  made_dirs (shared s) `prefix_of` made_dirs (shared s') /\
  attempts (shared s) `prefix_of` attempts (shared s').
Proof.
  intros Hstep. destruct who.
  - apply run_scraper_step_moves in Hstep. by destruct Hstep.
  - apply worker_moves_inv in Hstep
      as (ws & q & ws' & q' & w' & Hws & Hq & Hw & ->).
    apply start_image_loader_step_world in Hw as (Hk & Hl & Hd & Ha).
    simpl. split; [congruence|done].
  - apply signal_step_inv in Hstep as [_ ->]. simpl.
    split; [done|]. split; [by apply prefix_app_r|done].
Qed.

(** In a run the cancellation flag, once set, is never cleared, and the
    log, the directories made and the download attempts only grow at
    their end: nothing recorded is ever removed or changed. *)
Theorem run_only_adds (E : Env) (c : config) (sched : list actor) (s s' : state) :
  run E c sched s = Some s' ->
  (graceful_kill (shared s) = true -> graceful_kill (shared s') = true) /\
  log (shared s) `prefix_of` log (shared s') /\
  made_dirs (shared s) `prefix_of` made_dirs (shared s') /\
  attempts (shared s) `prefix_of` attempts (shared s').
Proof.
  revert s. induction sched as [|who sched IH]; intros s Hrun; simpl in Hrun.
  - by simplify_eq.
  - destruct (step E c who s) as [s1|] eqn:Hstep; [|done]. cbn in Hrun.
    destruct (step_world E c who s s1 Hstep) as (Hk & Hl & Hd & Ha).
    destruct (IH s1 Hrun) as (Hk' & Hl' & Hd' & Ha').
    split; [tauto|]. split; [by etrans|]. split; by etrans.
Qed.

Lemma run_only_adds_witness :
  (graceful_kill (shared Demo.before_download) = true ->
   graceful_kill (shared Demo.broken_end) = true) /\
  log (shared Demo.before_download) `prefix_of` log (shared Demo.broken_end) /\
  made_dirs (shared Demo.before_download)
    `prefix_of` made_dirs (shared Demo.broken_end) /\
  attempts (shared Demo.before_download)
    `prefix_of` attempts (shared Demo.broken_end).
Proof.
  apply (run_only_adds Demo.habr_broken Demo.one_worker
           ([Worker 0; Main; Main; Main])).
  vm_compute. reflexivity.
Defined.

(** ** Each article goes to one worker *)


(** A step that changes the queue is the [get()] of a worker: it takes
    the front article and changes nothing else. *)
Lemma start_image_loader_step_take (E : Env) (c : config) (k : nat)
    (ws ws' : wstate) (q q' : list Article) (w w' : world) :
  start_image_loader_step E c k ws q w = Some (ws', q', w') ->
  q' = q \/
  ws = WGet /\ w' = w /\
  exists a, q = a :: q' /\
            ws' = match images_links a with [] => WLoop | _ => WHandle a end.
Proof.
  intros Hw. destruct ws; simpl in Hw; simplify_eq; try (by left).
  - destruct q as [|a q0]; [done|]. cbn in Hw. simplify_eq.
    right. split; [done|]. split; [done|]. by exists a.
  - destruct (exists_before E (target_dir c a) ||
              bool_decide (target_dir c a ∈ made_dirs w)); simplify_eq; by left.
  - destruct (os_mkdir E (target_dir c a) w) as [[[]|e] w1]; simplify_eq; by left.
  - destruct (images_links a !! i) as [l|]; [|simplify_eq; by left].
    destruct (download_image E l (image_path (target_dir c a) i) w)
      as [[[]|e] w1]; simplify_eq; by left.
Qed.



(** ** After the signal *)

Lemma about_to_take_insert (pool : list wstate) (k : nat) (ws ws' : wstate) :
  pool !! k = Some ws ->
  (about_to_take (<[k := ws']> pool) + (if past_test ws then 1 else 0)
   = about_to_take pool + (if past_test ws' then 1 else 0))%nat.
Proof.
  intros Hk. unfold about_to_take.
  rewrite insert_take_drop by (by eapply lookup_lt_Some).
  rewrite <- (take_drop_middle pool k ws Hk) at 3.
  rewrite !filter_app, !filter_cons, !length_app.
  destruct (past_test ws), (past_test ws'); simpl; lia.
Qed.

(** With the flag set, a step takes an article only from a worker that
    had passed the test of its loop before, and no worker passes it. *)
Lemma cancelled_step (E : Env) (c : config) (who : actor) (s s' : state)
    (q : list Article) :
  reachable E c s ->
  graceful_kill (shared s) = true -> provider s = Some q ->
  step E c who s = Some s' ->
  exists q', provider s' = Some q' /\
    (length q + about_to_take (pool s') <= length q' + about_to_take (pool s))%nat.
Proof.
  intros Hs Hflag Hq Hstep. destruct who.
  - apply run_scraper_step_moves in Hstep.
    destruct Hstep as [H|e H Hf|articles H Hf|i H Hlt|i H Hge|q1 H Hq1 Hb
                       |q1 H Hq1 Hb|i th H Hth Ht|i H Hth];
      simpl; try (exists q; split; [done|lia]).
    + apply shape_invariant in Hs. unfold shape in Hs. rewrite H in Hs.
      destruct Hs as [_ Hnone]. congruence.
    + exists q. split; [done|]. unfold about_to_take.
      rewrite filter_app, length_app. simpl. lia.
  - apply worker_moves_inv in Hstep
      as (ws & q0 & ws' & q' & w' & Hws & Hq0 & Hw & ->).
    simplify_eq. simpl. exists q'. split; [done|].
    pose proof (about_to_take_insert (pool s) k ws ws' Hws) as Hcount.
    destruct ws; simpl in Hw; simplify_eq; simpl in Hcount; try lia.
    + rewrite Hflag in Hcount |- *. simpl in Hcount. lia.
    + destruct (Queue_empty q'); simpl in Hcount; lia.
    + destruct q as [|a q1]; [done|]. cbn in Hw. simplify_eq.
      destruct (images_links a); simpl in *; lia.
    + destruct (exists_before E (target_dir c a) ||
                bool_decide (target_dir c a ∈ made_dirs (shared s)));
        simplify_eq; simpl in Hcount; lia.
    + destruct (os_mkdir E (target_dir c a) (shared s)) as [[[]|e] w1];
        simplify_eq; simpl in Hcount; lia.
    + destruct (images_links a !! i) as [l|]; [|simplify_eq; simpl in Hcount; lia].
      destruct (download_image E l (image_path (target_dir c a) i) (shared s))
        as [[[]|e] w1]; simplify_eq; simpl in Hcount; lia.
  - apply signal_step_inv in Hstep as [_ ->]. simpl. exists q. split; [done|lia].
Qed.

(** Once the flag is set, the workers take at most as many further
    articles as there are workers that had already passed the test of
    their loop and not yet taken one: every other worker stops at its
    next test without taking anything. *)
Theorem cancelled_run_takes_few (E : Env) (c : config) (sched : list actor)
    (s s' : state) (q : list Article) :
  reachable E c s ->
  graceful_kill (shared s) = true ->
  provider s = Some q ->
  run E c sched s = Some s' ->
  exists q',
    provider s' = Some q' /\
    (length q - length q' <= about_to_take (pool s))%nat.
Proof.
  intros Hs Hflag Hq Hrun.
  enough (exists q', provider s' = Some q' /\
            (length q + about_to_take (pool s')
             <= length q' + about_to_take (pool s))%nat)
    as (q' & Hq' & Hle) by (exists q'; split; [done|lia]).
  revert s q Hs Hflag Hq Hrun.
  induction sched as [|who sched IH]; intros s q Hs Hflag Hq Hrun; simpl in Hrun.
  - simplify_eq. exists q. split; [done|lia].
  - destruct (step E c who s) as [s1|] eqn:Hstep; [|done]. cbn in Hrun.
    destruct (cancelled_step E c who s s1 q Hs Hflag Hq Hstep) as (q1 & Hq1 & Hle1).
    destruct (IH s1 q1) as (q' & Hq' & Hle); try done.
    + by eapply reachable_step.
    + by apply (step_world E c who s s1 Hstep).
    + exists q'. split; [done|lia].
Qed.

Lemma cancelled_run_takes_few_witness :
  exists q',
    provider Demo.cancelled_late_end = Some q' /\
    (length [Demo.post1] - length q' <= about_to_take (pool Demo.cancelled_late))%nat.
Proof.
  apply (cancelled_run_takes_few Demo.habr Demo.one_worker
           (Demo.alone 0 11 ++ [Main; Main; Main]) Demo.cancelled_late).
  - exists ([Main; Main; Main; Main] ++ Demo.alone 0 2 ++ [Signal]).
    vm_compute. reflexivity.
  - reflexivity.
  - reflexivity.
  - vm_compute. reflexivity.
Defined.

(** A worker that was at the test when the signal came takes nothing. *)
Example cancelled_at_test :
  (fun s => (sup s, provider s, pool s, attempts (shared s))) <$>
    run Demo.habr Demo.one_worker
      ([Main; Main; Main; Main; Worker 0; Signal; Worker 0; Worker 0; Main; Main; Main])
      init
  = Some (SReturned, Some [Demo.post1], [WDone], []).
Proof. vm_compute. reflexivity. Qed.

(** ** Runs that do not return *)

(** A worker that waits in [get()] on the empty queue waits for ever:
    nothing is ever put into the queue.  The worker never moves again,
    and [run_scraper], which joins it, never returns. *)
Theorem blocked_get_never_returns (E : Env) (c : config) (sched : list actor)
    (s s' : state) (k : nat) :
  reachable E c s ->
  pool s !! k = Some WGet ->
  provider s = Some [] ->
  run E c sched s = Some s' ->
  (Worker k ∉ sched) /\
  pool s' !! k = Some WGet /\ provider s' = Some [] /\ sup s' <> SReturned.
Proof.
  intros Hs Hk Hq Hrun.
  assert (Hend : reachable E c s') by (by eapply reachable_run).
  enough ((Worker k ∉ sched) /\ pool s' !! k = Some WGet /\ provider s' = Some [])
    as (Hnot & Hk' & Hq').
  { do 3 (split; [done|]). intros Hsup.
    pose proof (joined_invariant E c s' Hend) as Hj. unfold joined in Hj.
    rewrite Hsup in Hj. by specialize (Hj k WGet Hk'). }
  clear Hend. revert s Hs Hk Hq Hrun.
  induction sched as [|who sched IH]; intros s Hs Hk Hq Hrun; simpl in Hrun.
  - simplify_eq. split; [apply not_elem_of_nil|done].
  - destruct (step E c who s) as [s1|] eqn:Hstep; [|done]. cbn in Hrun.
    assert (Hs1 : reachable E c s1) by (by eapply reachable_step).
    assert (H1 : who <> Worker k /\ pool s1 !! k = Some WGet /\ provider s1 = Some []).
    { destruct who.
      - split; [done|]. apply run_scraper_step_moves in Hstep.
        destruct Hstep as [H|e H Hf|articles H Hf|i H Hlt|i H Hge|q1 H Hq1 Hb
                           |q1 H Hq1 Hb|i th H Hth Ht|i H Hth]; simpl; try done.
        + apply shape_invariant in Hs. unfold shape in Hs. rewrite H in Hs.
          destruct Hs as [_ Hnone]. congruence.
        + split; [by apply lookup_app_l_Some | done].
      - apply worker_moves_inv in Hstep
          as (ws & q0 & ws' & q' & w' & Hws & Hq0 & Hw & ->).
        simplify_eq. destruct (decide (k0 = k)) as [->|Hne].
        + rewrite Hk in Hws. simplify_eq.
        + split; [congruence|]. simpl.
          rewrite list_lookup_insert_ne by done. split; [done|].
          apply start_image_loader_step_take in Hw as [->|(_ & _ & a & Ha & _)];
            done.
      - split; [done|]. apply signal_step_inv in Hstep as [_ ->]. done. }
    destruct H1 as (Hwho & Hk1 & Hq1).
    destruct (IH s1 Hs1 Hk1 Hq1 Hrun) as (Hnot & Hk' & Hq').
    split; [|done]. apply not_elem_of_cons. split; [congruence|done].
Qed.

Lemma blocked_get_never_returns_witness :
  (Worker 1 ∉ Demo.alone 0 8 ++ [Main; Main]) /\
  pool (default init (run Demo.habr Demo.two_workers
                          (Demo.alone 0 8 ++ [Main; Main]) Demo.race_state))
    !! 1%nat = Some WGet /\
  provider (default init (run Demo.habr Demo.two_workers
                              (Demo.alone 0 8 ++ [Main; Main]) Demo.race_state))
    = Some [] /\
  sup (default init (run Demo.habr Demo.two_workers
                         (Demo.alone 0 8 ++ [Main; Main]) Demo.race_state))
    <> SReturned.
Proof.
  apply (blocked_get_never_returns Demo.habr Demo.two_workers
           (Demo.alone 0 8 ++ [Main; Main]) Demo.race_state).
  - exists Demo.race_schedule. vm_compute. reflexivity.
  - reflexivity.
  - reflexivity.
  - vm_compute. reflexivity.
Defined.

(** When every worker is over (or none was started) while the queue
    still holds an article and the flag is not set, the polling loop of
    [run_scraper] can only sleep: nothing changes any more until a
    signal comes. *)
Theorem stranded_queue_waits_for_signal (E : Env) (c : config)
    (sched : list actor) (s s' : state) (a : Article) (q : list Article) :
  sup s = SPoll ->
  provider s = Some (a :: q) ->
  graceful_kill (shared s) = false ->
  Forall (fun th => terminated th = true) (pool s) ->
  Signal ∉ sched ->
  run E c sched s = Some s' ->
  s' = s /\ Forall (fun who => who = Main) sched.
Proof.
  intros Hsup Hq Hflag Hpool. induction sched as [|who sched IH]; simpl.
  - intros _ H. by simplify_eq.
  - intros Hsig Hrun. apply not_elem_of_cons in Hsig as [Hwho Hsig].
    destruct (step E c who s) as [s1|] eqn:Hstep; [|done]. cbn in Hrun.
    assert (who = Main /\ s1 = s) as [-> ->].
    { destruct who; [|exfalso|done].
      - split; [done|]. simpl in Hstep. unfold run_scraper_step in Hstep.
        rewrite Hsup, Hq in Hstep. cbn in Hstep. rewrite Hflag in Hstep.
        simpl in Hstep. by simplify_eq.
      - apply worker_moves_inv in Hstep
          as (ws & q0 & ws' & q' & w' & Hws & Hq0 & Hw & ->).
        rewrite Forall_lookup in Hpool. specialize (Hpool k ws Hws).
        by rewrite terminated_no_step in Hw. }
    destruct (IH Hsig Hrun) as [-> Hall]. split; [done|]. by constructor.
Qed.

Lemma stranded_queue_waits_for_signal_witness :
  Demo.stranded = Demo.stranded /\
  Forall (fun who => who = Main) [Main; Main; Main].
Proof.
  apply (stranded_queue_waits_for_signal Demo.habr_broken Demo.two_articles
           [Main; Main; Main] Demo.stranded Demo.stranded Demo.post2 []).
  - reflexivity.
  - reflexivity.
  - reflexivity.
  - repeat constructor.
  - rewrite !not_elem_of_cons. split; [done|]. split; [done|]. split; [done|].
    apply not_elem_of_nil.
  - vm_compute. reflexivity.
Defined.

(** When no article is asked for ([articles_count <= 0]), nothing is
    fetched, no worker is started and [run_scraper] returns at once,
    whatever the site and the number of threads. *)
Theorem nothing_asked_returns (E : Env) (c : config) :
  articles_count c <= 0 ->
  run E c [Main; Main; Main; Main; Main] init =
    Some {| sup := SReturned; provider := Some []; pool := []; shared := world0 |}.
Proof.
  intros Hn.
  assert (Hf : fetch_articles E c = Ok []).
  { unfold fetch_articles. simp get_articles_links.
    destruct (Z_lt_dec 0 (articles_count c)); [lia|]. done. }
  cbn [run]. change (step E c Main init) with (Some
    {| sup := SFetch; provider := None; pool := []; shared := world0 |}).
  cbn [mbind option_bind run].
  assert (H2 : step E c Main {| sup := SFetch; provider := None; pool := [];
                               shared := world0 |}
               = Some {| sup := SStart 0; provider := Some []; pool := [];
                         shared := world0 |}).
  { simpl. unfold run_scraper_step. simpl. by rewrite Hf. }
  rewrite H2. cbn [mbind option_bind run].
  assert (H3 : step E c Main {| sup := SStart 0; provider := Some []; pool := [];
                               shared := world0 |}
               = Some {| sup := SPoll; provider := Some []; pool := [];
                         shared := world0 |}).
  { simpl. unfold run_scraper_step. simpl.
    change (Z.of_nat 0) with 0.
    destruct (Z.ltb_spec 0 (Z.min (threads c) (articles_count c))); [lia|done]. }
  rewrite H3. done.
Qed.

Lemma nothing_asked_returns_witness :
  run Demo.habr_broken Demo.no_articles [Main; Main; Main; Main; Main] init =
    Some {| sup := SReturned; provider := Some []; pool := []; shared := world0 |}.
Proof.
  apply (nothing_asked_returns Demo.habr_broken Demo.no_articles).
  simpl. lia.
Defined.

(** ** Directories are made for articles with images only *)

Lemma start_image_loader_step_mkdir (E : Env) (c : config) (k : nat)
    (ws ws' : wstate) (q q' : list Article) (w w' : world) :
  start_image_loader_step E c k ws q w = Some (ws', q', w') ->
  made_dirs w' = made_dirs w \/
  exists a, ws = WMkdir a /\ made_dirs w' = made_dirs w ++ [target_dir c a].
Proof.
  intros Hw. destruct ws; simpl in Hw; simplify_eq; try (by left).
  - destruct q as [|a q0]; [done|]. cbn in Hw. simplify_eq. by left.
  - destruct (exists_before E (target_dir c a) ||
              bool_decide (target_dir c a ∈ made_dirs w)); simplify_eq; by left.
  - unfold os_mkdir in Hw.
    destruct (exists_before E (target_dir c a) ||
              bool_decide (target_dir c a ∈ made_dirs w));
      [|destruct (mkdir E (target_dir c a))]; simplify_eq; simpl;
      first [ by left | right; by exists a ].
  - destruct (images_links a !! i) as [l|]; [|simplify_eq; by left].
    unfold download_image in Hw.
    destruct (urlretrieve E l (image_path (target_dir c a) i));
      simplify_eq; by left.
Qed.

Lemma busy_with_images (E : Env) (c : config) (s : state) (k : nat)
    (ws : wstate) (a : Article) :
  reachable E c s ->
  pool s !! k = Some ws -> article_of ws = Some a -> images_links a <> [].
Proof.
  intros Hs. revert k ws a. pattern s. revert s Hs.
  apply reachable_invariant;
    [by intros k ws a Hk; simpl in Hk; rewrite lookup_nil in Hk|].
  intros who s0 s' Hs0 IH Hstep k ws a Hk Ha. destruct who.
  - apply run_scraper_step_moves in Hstep.
    destruct Hstep as [H|e H Hf|articles H Hf|i H Hlt|i H Hge|q1 H Hq1 Hb
                       |q1 H Hq1 Hb|i th H Hth Ht|i H Hth];
      simpl in Hk; try (by apply (IH k ws a)).
    apply lookup_app_Some in Hk as [Hk|[_ Hk]]; [by apply (IH k ws a)|].
    apply list_lookup_singleton_Some in Hk as [_ <-]. done.
  - apply worker_moves_inv in Hstep
      as (ws0 & q0 & ws' & q' & w' & Hws & Hq0 & Hw & ->).
    simpl in Hk. destruct (decide (k = k0)) as [->|Hne].
    + rewrite list_lookup_insert_eq in Hk by (by eapply lookup_lt_Some).
      simplify_eq.
      pose proof (start_image_loader_step_effect E c k0 _ _ _ _ _ _ Hw)
        as (_ & Hkeep & _).
      apply start_image_loader_step_take in Hw
        as [Heq|(Hget & _ & a0 & Hqa & Hws')]; subst.
      * destruct (Hkeep eq_refl) as [Hn|Hsame]; [congruence|].
        apply (IH k0 ws0 a); [exact Hws|congruence].
      * destruct (images_links a0) eqn:Hi; simpl in Ha; [done|].
        simplify_eq. by rewrite Hi.
    + rewrite list_lookup_insert_ne in Hk by done. by apply (IH k ws a).
  - apply signal_step_inv in Hstep as [_ ->]. by apply (IH k ws a).
Qed.

(** Every directory made in a run is the directory of a fetched article
    that has images: for an article without images nothing is made and
    nothing is downloaded. *)
Theorem directories_for_articles_with_images (E : Env) (c : config) (s : state)
    (d : str) :
  reachable E c s ->
  d ∈ made_dirs (shared s) ->
  exists articles a,
    fetch_articles E c = Ok articles /\ a ∈ articles /\
    images_links a <> [] /\ d = target_dir c a.
Proof.
  intros Hs. revert d. pattern s. revert s Hs.
  apply reachable_invariant;
    [by intros d Hd; simpl in Hd; apply elem_of_nil in Hd|].
  intros who s0 s' Hs0 IH Hstep d Hd. destruct who.
  - apply run_scraper_step_moves in Hstep. destruct Hstep; by apply IH.
  - apply worker_moves_inv in Hstep
      as (ws & q & ws' & q' & w' & Hws & Hq & Hw & ->).
    simpl in Hd.
    apply start_image_loader_step_mkdir in Hw as [Heq|(a & -> & Heq)];
      rewrite Heq in Hd; [by apply IH|].
    apply elem_of_app in Hd as [Hd|Hd]; [by apply IH|].
    apply list_elem_of_singleton in Hd as ->.
    pose proof (targeted_invariant E c s0 Hs0) as Ht. unfold targeted in Ht.
    rewrite Hq in Ht. destruct Ht as (articles & Hf & _ & Hpool & _).
    exists articles, a. split; [done|]. split; [by eapply Hpool|].
    split; [|done]. by eapply (busy_with_images E c s0 k (WMkdir a)).
  - apply signal_step_inv in Hstep as [_ ->]. by apply IH.
Qed.

Lemma directories_for_articles_with_images_witness :
  exists articles a,
    fetch_articles Demo.habr Demo.two_articles = Ok articles /\ a ∈ articles /\
    images_links a <> [] /\ lit "out/ab" = target_dir Demo.two_articles a.
Proof.
  apply (directories_for_articles_with_images Demo.habr Demo.two_articles
           Demo.two_articles_end).
  - exists Demo.two_articles_schedule. vm_compute. reflexivity.
  - apply list_elem_of_In. vm_compute. tauto.
Defined.

(** An article without images is taken from the queue and nothing else
    happens for it. *)
Example article_without_images :
  (fun s => (sup s, provider s, pool s, made_dirs (shared s), attempts (shared s))) <$>
    run (Demo.site Demo.pages
           [(HABR_ARTICLE_LINKS_REGEXP, lit "index", [lit "/post/3"]);
            (ARTICLE_TITLE_REGEXP, lit "post3", [lit "Third"])] [])
        Demo.one_worker
        ([Main; Main; Main; Main] ++ Demo.alone 0 7 ++ [Main; Main; Main]) init
  = Some (SReturned, Some [], [WDone], [], []).
Proof. vm_compute. reflexivity. Qed.

(** ** A worker on its own *)

Section WorkerAlone.
Variable E : Env.
Variable c : config.
Variable k : nat.

Lemma steps_trans (n m : nat) (ws ws1 : wstate) (q q1 : list Article) (w w1 : world)
    (r : wstate * list Article * world) :
  start_image_loader_steps E c n k ws q w = Some (ws1, q1, w1) ->
  start_image_loader_steps E c m k ws1 q1 w1 = Some r ->
  start_image_loader_steps E c (n + m) k ws q w = Some r.
Proof.
  revert ws q w. induction n as [|n IH]; intros ws q w Hn Hm.
  - simpl in Hn. by simplify_eq.
  - cbn [start_image_loader_steps] in Hn. simpl Nat.add.
    cbn [start_image_loader_steps].
    destruct (start_image_loader_step E c k ws q w) as [[[ws2 q2] w2]|]; [|done].
    cbn in Hn |- *. by eapply IH.
Qed.

Lemma steps_S (n : nat) (ws ws1 : wstate) (q q1 : list Article) (w w1 : world)
    (r : wstate * list Article * world) :
  start_image_loader_step E c k ws q w = Some (ws1, q1, w1) ->
  start_image_loader_steps E c n k ws1 q1 w1 = Some r ->
  start_image_loader_steps E c (S n) k ws q w = Some r.
Proof. intros Hstep Hn. cbn [start_image_loader_steps]. by rewrite Hstep. Qed.

(** The loop of [start_image_loader] with no other thread around: it
    ends; the flag is as before; the attempts are the first ones of the
    downloads of the queue, article by article. *)
Lemma worker_loop_alone (q : list Article) (w : world) :
  exists n ws' q' w' made,
    start_image_loader_steps E c n k WLoop q w = Some (ws', q', w') /\
    terminated ws' = true /\
    graceful_kill w' = graceful_kill w /\
    attempts w' = attempts w ++ made /\
    made `prefix_of`
      (q ≫= fun a => destinations (images_links a) (target_dir c a)) /\
    (ws' = WDone ->
     graceful_kill w = true \/
     q' = [] /\
     made = q ≫= fun a => destinations (images_links a) (target_dir c a)) /\
    (forall e, ws' = WDead e ->
       exists a w0 w1, a ∈ q /\
         download_all_images E (images_links a) (target_dir c a) w0 = (Raise e, w1)).
Proof.
  destruct (graceful_kill w) eqn:Hflag.
  { exists 2%nat, WDone, q, (write_log (thread_name E k ++ lit " finish") w).2, [].
    split.
    { eapply steps_S; [cbn [start_image_loader_step]; by rewrite Hflag|].
      eapply steps_S; reflexivity. }
    split; [done|]. split; [done|].
    split; [by rewrite app_nil_r|]. split; [apply prefix_nil|].
    split; [by left | done]. }
  revert w Hflag. induction q as [|a q1 IH]; intros w Hflag.
  { exists 3%nat, WDone, [], (write_log (thread_name E k ++ lit " finish") w).2, [].
    split.
    { eapply steps_S; [cbn [start_image_loader_step]; by rewrite Hflag|].
      eapply steps_S; [reflexivity|]. eapply steps_S; reflexivity. }
    split; [done|]. split; [done|].
    split; [by rewrite app_nil_r|]. split; [done|].
    split; [by right | done]. }
  destruct (images_links a) as [|x xs] eqn:Ha.
  - (* no image: back to the test *)
    destruct (IH w Hflag)
      as (n & ws' & q' & w' & made & Hrun & Ht & Hk & Hatt & Hp & Hdone & Hdead).
    exists (3 + n)%nat, ws', q', w', made.
    split.
    { eapply steps_S; [cbn [start_image_loader_step]; by rewrite Hflag|].
      eapply steps_S; [reflexivity|].
      eapply steps_S; [|exact Hrun].
      cbn [start_image_loader_step Queue_get Queue_empty mbind option_bind]. by rewrite Ha. }
    cbn [mbind list_bind]. rewrite Ha.
    change (destinations [] (target_dir c a)) with (@nil (str * str)).
    rewrite app_nil_l. do 4 (split; [done|]). split; [done|].
    intros e He. destruct (Hdead e He) as (a0 & w0 & w1 & Hin & Hd).
    exists a0, w0, w1. split; [by apply elem_of_cons; right|done].
  - (* images: the directory, the downloads, then back to the test *)
    set (w1 := (write_log (thread_name E k ++ lit " handling " ++ name a) w).2).
    assert (H4 : start_image_loader_steps E c 4 k WLoop (a :: q1) w
                 = Some (WExists a, q1, w1)).
    { eapply steps_S; [cbn [start_image_loader_step]; by rewrite Hflag|].
      eapply steps_S; [reflexivity|].
      eapply steps_S;
        [cbn [start_image_loader_step Queue_get Queue_empty mbind option_bind]; by rewrite Ha|].
      eapply steps_S; reflexivity. }
    destruct (worker_runs_download_all_images E c k a q1 w1) as [n0 Hn0].
    rewrite Ha in Hn0.
    destruct (download_all_images E (x :: xs) (target_dir c a) w1)
      as [r w2] eqn:Hd.
    pose proof (download_all_images_effect E _ _ _ _ _ Hd)
      as (Hk2 & _ & _ & (m & Hatt2 & Hm) & _).
    destruct r as [[]|e]; cbn [after_download] in Hn0.
    + set (w3 := (write_log (thread_name E k ++ lit " end handling " ++ name a) w2).2).
      assert (Hflag3 : graceful_kill w3 = false).
      { subst w3 w1. simpl. simpl in Hk2. congruence. }
      destruct (IH w3 Hflag3)
        as (n & ws' & q' & w' & made & Hrun & Ht & Hk & Hatt & Hp & Hdone & Hdead).
      exists (4 + (n0 + (1 + n)))%nat, ws', q', w',
        (destinations (x :: xs) (target_dir c a) ++ made).
      split.
      { eapply steps_trans; [exact H4|].
        eapply steps_trans; [exact Hn0|].
        eapply steps_S; [reflexivity|exact Hrun]. }
      rewrite (Hm eq_refl), take_ge in Hatt2 by (by rewrite destinations_length).
      split; [done|]. split; [congruence|].
      split.
      { rewrite Hatt. subst w3. simpl. rewrite Hatt2. subst w1. simpl.
        by rewrite <- app_assoc. }
      cbn [mbind list_bind]. rewrite Ha.
      split; [by apply prefix_app|]. split.
      * intros Hw. destruct (Hdone Hw) as [Hbad|[-> ->]]; [congruence|].
        right. done.
      * intros e He. destruct (Hdead e He) as (a0 & w0 & w4 & Hin & Hd0).
        exists a0, w0, w4. split; [by apply elem_of_cons; right|done].
    + exists (4 + n0)%nat, (WDead e), q1, w2,
        (take m (destinations (x :: xs) (target_dir c a))).
      split; [by eapply steps_trans; [exact H4|exact Hn0]|].
      split; [done|]. split; [subst w1; simpl in Hk2; congruence|].
      split; [rewrite Hatt2; by subst w1|]. cbn [mbind list_bind]. rewrite Ha.
      split; [apply prefix_app_r, prefix_take|]. split; [done|].
      intros e0 He0. simplify_eq. exists a, w1, w2.
      split; [by apply elem_of_cons; left|by rewrite Ha].
Qed.

Lemma download_all_images_no_failure (links : list str) (out_dir : str)
    (w w' : world) (e : exn) :
  (forall url path, urlretrieve E url path = None) ->
  (forall p, mkdir E p = None) ->
  download_all_images E links out_dir w <> (Raise e, w').
Proof.
  intros Hurl Hmk. rewrite download_all_images_unfold.
  destruct (exists_before E out_dir || bool_decide (out_dir ∈ made_dirs w))
    eqn:Hex; cbn [negb].
  - unfold mret, M_ret.
    destruct (download_loop E links out_dir (length links) 0 w eq_refl)
      as (m & r0 & w0 & Hrun & _ & _ & _ & _ & _ & Hr).
    rewrite Hrun. intros H. simplify_eq.
    destruct Hr as (l & _ & _ & Hfail). by rewrite Hurl in Hfail.
  - unfold os_mkdir. rewrite Hex, Hmk.
    destruct (download_loop E links out_dir (length links) 0
                {| graceful_kill := graceful_kill w; log := log w;
                   made_dirs := made_dirs w ++ [out_dir];
                   attempts := attempts w |} eq_refl)
      as (m & r0 & w0 & Hrun & _ & _ & _ & _ & _ & Hr).
    rewrite Hrun. intros H. simplify_eq.
    destruct Hr as (l & _ & _ & Hfail). by rewrite Hurl in Hfail.
Qed.
End WorkerAlone.

(** A worker left alone always comes to its end, whatever the queue and
    the site: it returns, and then the flag was set or the queue is
    empty, or it is ended by the error of a [download_all_images]. *)
Theorem worker_alone_ends (E : Env) (c : config) (k : nat)
    (q : list Article) (w : world) :
  exists n ws' q' w',
    start_image_loader_steps E c n k WStart q w = Some (ws', q', w') /\
    (ws' = WDone /\ (graceful_kill w = true \/ q' = []) \/
     exists e a w0 w1, ws' = WDead e /\ a ∈ q /\
       download_all_images E (images_links a) (target_dir c a) w0 = (Raise e, w1)).
Proof.
  destruct (worker_loop_alone E c k q (write_log (thread_name E k ++ lit " start") w).2)
    as (n & ws' & q' & w' & made & Hrun & Ht & _ & _ & _ & Hdone & Hdead).
  exists (1 + n)%nat, ws', q', w'. split.
  - eapply (steps_S E c k); [reflexivity|exact Hrun].
  - destruct ws'; try done.
    + left. split; [done|]. destruct (Hdone eq_refl) as [?|[? _]]; [by left|by right].
    + right. destruct (Hdead e eq_refl) as (a & w0 & w1 & Hin & Hd).
      by exists e, a, w0, w1.
Qed.

(** On a site where no download and no [mkdir] fails, and without
    signal, a worker left alone empties the queue and returns, having
    attempted exactly the downloads of every article of the queue, in
    the order of the queue and of the images. *)
Theorem worker_alone_downloads_all (E : Env) (c : config) (k : nat)
    (q : list Article) (w : world) :
  (forall url path, urlretrieve E url path = None) ->
  (forall p, mkdir E p = None) ->
  graceful_kill w = false ->
  exists n w',
    start_image_loader_steps E c n k WStart q w = Some (WDone, [], w') /\
    attempts w' =
      attempts w ++ (q ≫= fun a => destinations (images_links a) (target_dir c a)).
Proof.
  intros Hurl Hmk Hflag.
  destruct (worker_loop_alone E c k q (write_log (thread_name E k ++ lit " start") w).2)
    as (n & ws' & q' & w' & made & Hrun & Ht & _ & Hatt & _ & Hdone & Hdead).
  destruct ws'; try done.
  - destruct (Hdone eq_refl) as [Hbad|[-> ->]]; [simpl in Hbad; congruence|].
    exists (1 + n)%nat, w'. split; [|done].
    eapply (steps_S E c k); [reflexivity|exact Hrun].
  - destruct (Hdead e eq_refl) as (a & w0 & w1 & _ & Hd).
    by apply (download_all_images_no_failure E) in Hd.
Qed.

Lemma worker_alone_downloads_all_witness :
  exists n w',
    start_image_loader_steps Demo.habr Demo.two_articles n 0 WStart
      [Demo.post1; Demo.post3; Demo.post2] world0 = Some (WDone, [], w') /\
    attempts w' =
      attempts world0 ++
      ([Demo.post1; Demo.post3; Demo.post2] ≫= fun a =>
         destinations (images_links a) (target_dir Demo.two_articles a)).
Proof.
  apply (worker_alone_downloads_all Demo.habr Demo.two_articles 0).
  - reflexivity.
  - reflexivity.
  - reflexivity.
Defined.

(** ** A whole run with one worker *)

(** With one thread, on a site where no download and no [mkdir] fails,
    [run_scraper] has a run without signal that returns with the queue
    empty and the worker returned, in which exactly the downloads of
    every fetched article were attempted, article by article and image
    by image, into the directory of each. *)
Theorem one_worker_run_downloads_all (E : Env) (c : config) (articles : list Article) :
  (forall url path, urlretrieve E url path = None) ->
  (forall p, mkdir E p = None) ->
  fetch_articles E c = Ok articles ->
  threads c = 1 ->
  1 <= articles_count c ->
  exists n w',
    run E c ([Main; Main; Main; Main] ++ replicate n (Worker 0) ++ [Main; Main; Main])
        init
      = Some {| sup := SReturned; provider := Some []; pool := [WDone]; shared := w' |} /\
    graceful_kill w' = false /\
    attempts w' =
      articles ≫= fun a => destinations (images_links a) (target_dir c a).
Proof.
  intros Hurl Hmk Hf Hthreads Hcount.
  destruct (worker_loop_alone E c 0 articles
              (write_log (thread_name E 0 ++ lit " start") world0).2)
    as (n & ws' & q' & w' & made & Hrun & Ht & Hk & Hatt & _ & Hdone & Hdead).
  destruct ws'; try done.
  2: { destruct (Hdead e eq_refl) as (a & w0 & w1 & _ & Hd).
       by apply (download_all_images_no_failure E) in Hd. }
  destruct (Hdone eq_refl) as [Hbad|[-> ->]]; [done|].
  exists (1 + n)%nat, w'.
  assert (H4 : run E c [Main; Main; Main; Main] init =
            Some {| sup := SPoll; provider := Some articles; pool := [WStart];
                    shared := world0 |}).
  { cbn [run]. change (step E c Main init) with (Some
      {| sup := SFetch; provider := None; pool := []; shared := world0 |}).
    cbn [mbind option_bind run].
    assert (H2 : step E c Main {| sup := SFetch; provider := None; pool := [];
                                 shared := world0 |}
                 = Some {| sup := SStart 0; provider := Some articles; pool := [];
                           shared := world0 |}).
    { simpl. unfold run_scraper_step. simpl.
      by rewrite Hf, ArticlesProvider_queue. }
    rewrite H2. cbn [mbind option_bind run].
    assert (H3 : step E c Main {| sup := SStart 0; provider := Some articles;
                                 pool := []; shared := world0 |}
                 = Some {| sup := SStart 1; provider := Some articles;
                           pool := [WStart]; shared := world0 |}).
    { simpl. unfold run_scraper_step. simpl. change (Z.of_nat 0) with 0.
      destruct (Z.ltb_spec 0 (Z.min (threads c) (articles_count c))); [done|lia]. }
    rewrite H3. cbn [mbind option_bind run].
    simpl. unfold run_scraper_step. simpl. change (Z.of_nat 1) with 1.
    destruct (Z.ltb_spec 1 (Z.min (threads c) (articles_count c))); [lia|done]. }
  assert (Hw : run E c (replicate (1 + n) (Worker 0))
                 {| sup := SPoll; provider := Some articles; pool := [WStart];
                    shared := world0 |}
               = Some {| sup := SPoll; provider := Some []; pool := [WDone];
                         shared := w' |}).
  { apply (run_worker_alone E c 0 (1 + n)
             {| sup := SPoll; provider := Some articles; pool := [WStart];
                shared := world0 |} WStart WDone articles [] w');
      [done|done|].
    eapply (steps_S E c 0); [reflexivity|exact Hrun]. }
  split; [|split; [simpl in Hk; congruence|by rewrite Hatt]].
  rewrite run_app, H4. cbn [mbind option_bind]. rewrite run_app, Hw.
  cbn [mbind option_bind]. simpl. unfold run_scraper_step. simpl.
  by rewrite orb_true_r.
Qed.

Lemma one_worker_run_downloads_all_witness :
  exists n w',
    run Demo.habr {| threads := 1; articles_count := 3; out_dir := Demo.out |}
        ([Main; Main; Main; Main] ++ replicate n (Worker 0) ++ [Main; Main; Main])
        init
      = Some {| sup := SReturned; provider := Some []; pool := [WDone]; shared := w' |} /\
    graceful_kill w' = false /\
    attempts w' =
      [Demo.post1; Demo.post2; Demo.post3] ≫= fun a =>
        destinations (images_links a)
          (target_dir {| threads := 1; articles_count := 3; out_dir := Demo.out |} a).
Proof.
  apply (one_worker_run_downloads_all Demo.habr
           {| threads := 1; articles_count := 3; out_dir := Demo.out |}
           [Demo.post1; Demo.post2; Demo.post3]).
  - reflexivity.
  - reflexivity.
  - vm_compute. reflexivity.
  - reflexivity.
  - simpl. lia.
Defined.

(** ** [is_finish] *)

Lemma take_calls_rest (k : nat) (q q' : list Article) (rs : list (option Article)) :
  take_calls k q = Some (rs, q') -> q' = drop k q.
Proof.
  revert q rs. induction k as [|k IH]; intros q rs; simpl.
  - intros H. by simplify_eq.
  - destruct q as [|a q0].
    + cbn. destruct (take_calls k []) as [[rs0 q0]|] eqn:Hk; [|done].
      cbn. intros H. simplify_eq. apply IH in Hk. by rewrite drop_nil in Hk.
    + cbn. destruct (take_calls k q0) as [[rs0 q1]|] eqn:Hk; [|done].
      cbn. intros H. simplify_eq. by apply IH in Hk.
Qed.

(** After [k] calls of [get_article_to_handle] on a fresh provider,
    [is_finish] answers true exactly when [k] is at least the number of
    articles the provider was built from. *)
Theorem is_finish_after_takes (articles_arr : list Article) (k : nat)
    (rs : list (option Article)) (q' : list Article) :
  take_calls k (ArticlesProvider articles_arr) = Some (rs, q') ->
  is_finish q' = true <-> (length articles_arr <= k)%nat.
Proof.
  rewrite ArticlesProvider_queue. intros H. apply take_calls_rest in H as ->.
  unfold is_finish, Queue_empty.
  destruct (drop k articles_arr) as [|a l] eqn:Hd.
  - apply drop_nil_inv in Hd. tauto.
  - split; [done|]. intros Hle. by rewrite drop_ge in Hd.
Qed.

Lemma is_finish_after_takes_witness :
  is_finish [Demo.post3] = true <-> (length [Demo.post1; Demo.post2; Demo.post3] <= 2)%nat.
Proof.
  apply (is_finish_after_takes [Demo.post1; Demo.post2; Demo.post3] 2
           [Some Demo.post1; Some Demo.post2]).
  reflexivity.
Defined.
